(** * BRC-20 indexer core: committed key-value store and interpreter

    A shallow embedding of [ord/stateless/header.go] (the store [Header]
    with its pending write log) and of [ord/brc20.go] (the interpreter
    [Exec]), followed by the properties of the specification that were
    checked against them.

    Conventions.
    - A byte is a [Z] in [0, 256); a byte slice is a [list Z]; a Go [nil]
      slice returned by a lookup is [None].
    - A [uint256.Int] is a [Z] in [0, 2^256); additions and subtractions
      are written with their reduction modulo [2^256].
    - A Go panic is the [Panic] constructor of [result]. *)

From Stdlib Require Import ZArith Lia Ascii.
From stdpp Require Import gmap strings list fin_maps.

Local Open Scope Z_scope.

(** ** Panics and results *)

Inductive panic : Type :=
  | KeyLength        (* len(key) != verkle.KeySize *)
  | ValueLength      (* len(value) != ValueSize *)
  | BlobTooLong      (* len(value) > expectedSize in InsertBytes *)
  | IndexOutOfRange  (* s[i] with i >= len(s) *)
  | SliceBounds      (* s[a:b] with b beyond the capacity or length *)
  | TickLength       (* "Tick must be 4 or 5 bytes!" *)
  | KeyNot32.        (* "Key must be 32 bytes!" *)

Inductive result (A : Type) : Type :=
  | Ok (a : A)
  | Panic (p : panic).
Arguments Ok {A} a.
Arguments Panic {A} p.

Definition rbind {A B} (m : result A) (f : A -> result B) : result B :=
  match m with
  | Ok a => f a
  | Panic p => Panic p
  end.

Notation "x <-! m ; k" := (rbind m (fun x => k))
  (at level 100, m at next level, right associativity, only parsing).

(** ** Bytes and 256-bit integers *)

Definition byte_wrap (z : Z) : Z := z mod 256.
Definition u64_wrap (z : Z) : Z := z mod 2 ^ 64.
Definition u256_wrap (z : Z) : Z := z mod 2 ^ 256.

(** Big-endian value of a byte string. *)
Definition be_value (l : list Z) : Z :=
  fold_left (fun acc b => acc * 256 + b) l 0.

(** Big-endian encoding of [v] on exactly [n] bytes (the low [n] bytes). *)
Fixpoint be_bytes (n : nat) (v : Z) : list Z :=
  match n with
  | O => []
  | S n' => be_bytes n' (v / 256) ++ [v mod 256]
  end.

(** [copy(dst[:], src)] into a zeroed array of [n] bytes. *)
Definition copy_into (n : nat) (src : list Z) : list Z :=
  take n (src ++ replicate n 0).

(** go-verkle constants. *)
Definition KeySize : nat := 32.
Definition StemSize : nat := 31.
Definition NodeWidth : Z := 256.

(** Modelled from the spec: the constant [ValueSize], declared outside
    header.go; section 6 fixes the per-slot value size at 32 bytes. *)
Definition ValueSize : nat := 32.

(** [uint256.Int.WriteToArray32]: 32 big-endian bytes. *)
Definition WriteToArray32 (v : Z) : list Z := be_bytes 32 v.

(** [uint256.Int.SetBytes]: big-endian value; of a buffer longer than
    32 bytes only the last 32 are used. *)
Definition SetBytes (buf : list Z) : Z :=
  be_value (drop (length buf - 32)%nat buf).

(** ** The store *)

(** One entry of the pending write log ([TripleElement]). *)
Record TripleElement : Type := mkTriple {
  Key : list Z;
  OldValue : list Z;
  NewValue : list Z;
  OldValueExists : bool
}.

(** [Header], with the fields header.go reads and writes.  [Root] is the
    authenticated tree, used only through [Get] and [Insert] and so
    represented by the finite map it implements; [Temp] is the list
    [Temp.Elements]; [Height] is a Go [uint]. *)
Record Header : Type := mkHeader {
  Root : gmap (list Z) (list Z);
  KV : gmap (list Z) (list Z);
  Temp : list TripleElement;
  Height : Z;
  Hash : string
}.

Definition NewHeader (initHeight : Z) (initHash : string) : Header :=
  {| Root := ∅; Height := initHeight; Hash := initHash; KV := ∅; Temp := [] |}.

Definition get (h : Header) (key : list Z) : result (option (list Z)) :=
  if negb (length key =? KeySize)%nat then Panic KeyLength
  else Ok (Root h !! key).

Definition insert (h : Header) (key value : list Z) : result Header :=
  if negb (length key =? KeySize)%nat then Panic KeyLength else
  oldValue <-! get h key;
  let keyArray := copy_into KeySize key in
  let oldValueArray :=
    match oldValue with
    | Some o => copy_into ValueSize o
    | None => replicate ValueSize 0
    end in
  let newValueArray := copy_into ValueSize value in
  let oldExists := match oldValue with Some _ => true | None => false end in
  if negb (length value =? ValueSize)%nat then Panic ValueLength else
  Ok {| Root := Root h; KV := KV h;
        Temp := Temp h ++ [ {| Key := keyArray; OldValue := oldValueArray;
                               NewValue := newValueArray;
                               OldValueExists := oldExists |} ];
        Height := Height h; Hash := Hash h |}.

Definition InsertUInt256 (h : Header) (key : list Z) (value : Z) : result Header :=
  insert h key (WriteToArray32 value).

Definition GetUInt256 (h : Header) (key : list Z) : result Z :=
  value <-! get h key;
  match value with
  | None => Ok 0
  | Some v => if (length v =? 0)%nat then Ok 0 else Ok (SetBytes v)
  end.

(** [s[a:b]] on a slice whose backing array continues with [spare] beyond
    its length: Go allows [b] up to the capacity. *)
Definition reslice (s spare : list Z) (a b : nat) : result (list Z) :=
  if (b <=? length s + length spare)%nat
  then Ok (take (b - a) (drop a (s ++ spare)))
  else Panic SliceBounds.

(** [newKey[verkle.StemSize] = b] on a 32-byte key. *)
Definition set_suffix (newKey : list Z) (b : Z) : list Z :=
  <[StemSize := b]> newKey.

(** The loop of [InsertBytes]: [for i := range requiredSlots]. *)
Fixpoint InsertBytes_loop (h : Header) (key0 : list Z) (suffix : Z)
    (value spare : list Z) (idxs : list nat) : result Header :=
  match idxs with
  | [] => Ok h
  | i :: rest =>
      let newKey := set_suffix key0 (byte_wrap (suffix + byte_wrap (Z.of_nat i))) in
      chunk <-! reslice value spare (i * ValueSize) ((i + 1) * ValueSize);
      h' <-! insert h newKey chunk;
      InsertBytes_loop h' key0 suffix value spare rest
  end.

(** [InsertBytes(key, value)]; [spare] is the content of the backing array
    of [value] between its length and its capacity. *)
Definition InsertBytes (h : Header) (key value spare : list Z) : result Header :=
  match key !! StemSize with
  | None => Panic IndexOutOfRange
  | Some suffix =>
      let expectedSize := (NodeWidth - suffix) * Z.of_nat ValueSize in
      if expectedSize <? Z.of_nat (length value) then Panic BlobTooLong else
      let requiredSlots := ((length value + ValueSize - 1) / ValueSize)%nat in
      let newKey := copy_into KeySize key in
      h1 <-! InsertUInt256 h newKey (Z.of_nat requiredSlots);
      InsertBytes_loop h1 newKey suffix value spare (seq 0 requiredSlots)
  end.

Fixpoint GetBytes_loop (h : Header) (key0 : list Z) (suffix : Z)
    (value : list Z) (idxs : list nat) : result (list Z) :=
  match idxs with
  | [] => Ok value
  | i :: rest =>
      let newKey := set_suffix key0 (byte_wrap (suffix + byte_wrap (Z.of_nat i))) in
      slot <-! get h newKey;
      GetBytes_loop h key0 suffix (value ++ default [] slot) rest
  end.

Definition GetBytes (h : Header) (key : list Z) : result (list Z) :=
  let newKey := copy_into KeySize key in
  n <-! GetUInt256 h newKey;
  let requiredSlots := u64_wrap n in
  if (0 <? requiredSlots) then
    match key !! StemSize with
    | None => Panic IndexOutOfRange
    | Some suffix =>
        GetBytes_loop h newKey suffix [] (seq 0 (Z.to_nat requiredSlots))
    end
  else Ok [].

(** The range loop of [Paging]: every staged element goes to [KV] and to
    the tree. *)
Definition page_element (st : gmap (list Z) (list Z) * gmap (list Z) (list Z))
    (elem : TripleElement) : gmap (list Z) (list Z) * gmap (list Z) (list Z) :=
  (<[Key elem := NewValue elem]> (fst st), <[Key elem := NewValue elem]> (snd st)).

Definition page_elements (kv root : gmap (list Z) (list Z))
    (elems : list TripleElement) : gmap (list Z) (list Z) * gmap (list Z) (list Z) :=
  fold_left page_element elems (kv, root).

(** [Paging(getter, queryHash, _)]: the header as the call leaves it and
    the error it returns ([None] is Go's nil error).  [GetBlockHash] is the
    getter's method, an error being its [inr]. *)
Definition Paging {E : Type} (h : Header) (GetBlockHash : Z -> string + E)
    (queryHash : bool) : Header * option E :=
  let '(kv, root) := page_elements (KV h) (Root h) (Temp h) in
  let height := u64_wrap (Height h + 1) in
  let h1 := {| Root := root; KV := kv; Temp := []; Height := height; Hash := Hash h |} in
  if queryHash then
    match GetBlockHash height with
    | inr err => (h1, Some err)
    | inl hash =>
        ({| Root := root; KV := kv; Temp := []; Height := height; Hash := hash |}, None)
    end
  else (h1, None).

(** ** Snapshots: [Serialize] and [Deserialize]

    [encoding/gob] on a [KeyValueMap] is left abstract: [gob_Encode] gives
    the buffer or fails, [gob_Decode] gives the map or fails. *)
Class Gob (B : Type) : Type := {
  gob_Encode : gmap (list Z) (list Z) -> option B;
  gob_Decode : B -> option (gmap (list Z) (list Z))
}.

(** [Serialize()]: the encoding of [KV] alone; [None] is the error. *)
Definition Serialize {B : Type} {codec : Gob B} (state : Header) : option B :=
  gob_Encode (KV state).

(** [Deserialize(buffer, height, _)]; [None] is the error of the decoder.
    The tree is rebuilt by inserting every entry of the decoded map (the
    insertion into the map that stands for the tree does not fail, so the
    return on its error is not taken); [root.Commit()] changes no entry. *)
Definition Deserialize {B : Type} {codec : Gob B} (buffer : B) (height : Z)
    : option Header :=
  match gob_Decode buffer with
  | None => None
  | Some kv =>
      let root := map_fold (fun k v (root : gmap (list Z) (list Z)) => <[k := v]> root) ∅ kv in
      Some {| Root := root; KV := kv; Height := height; Hash := ""; Temp := [] |}
  end.

(** ** Strings as byte strings, and [encoding/hex] *)

Definition bytes_of_string (s : string) : list Z :=
  map (fun c => Z.of_N (Ascii.N_of_ascii c)) (String.list_ascii_of_string s).

Definition string_of_bytes (l : list Z) : string :=
  String.string_of_list_ascii (map (fun b => Ascii.ascii_of_N (Z.to_N b)) l).

(** [reverseHexTable]: the value of a hex digit, of either case. *)
Definition fromHexChar (c : Z) : option Z :=
  if (48 <=? c) && (c <=? 57) then Some (c - 48)
  else if (97 <=? c) && (c <=? 102) then Some (c - 87)
  else if (65 <=? c) && (c <=? 70) then Some (c - 55)
  else None.

(** [hex.Decode]: the bytes decoded before the first error, and whether
    the whole input was decoded ([err == nil]). *)
Fixpoint hex_Decode (src : list Z) : list Z * bool :=
  match src with
  | [] => ([], true)
  | [_] => ([], false)
  | p :: q :: rest =>
      match fromHexChar p, fromHexChar q with
      | Some a, Some b =>
          let '(out, ok) := hex_Decode rest in (a * 16 + b :: out, ok)
      | _, _ => ([], false)
      end
  end.

Definition hex_DecodeString (s : string) : list Z * bool :=
  hex_Decode (bytes_of_string s).

Definition hexDigit (n : Z) : Z := if n <? 10 then 48 + n else 87 + n.

Definition hex_EncodeToString (l : list Z) : string :=
  string_of_bytes (flat_map (fun b => [hexDigit (b / 16); hexDigit (b mod 16)]) l).

(** [strings.Split(s, ";")[0]]. *)
Fixpoint before_semicolon (s : string) : string :=
  match s with
  | EmptyString => EmptyString
  | String c rest =>
      if Ascii.eqb c ";"%char then EmptyString else String c (before_semicolon rest)
  end.

(** [s[:n]] on a string. *)
Definition string_prefix (s : string) (n : nat) : result string :=
  if (n <=? String.length s)%nat then Ok (String.substring 0 n s)
  else Panic SliceBounds.

(** ** The interface [KVStorage] *)

(** brc20.go reaches the store only through the three methods below.  The
    interface is declared outside brc20.go; its methods are taken from the
    calls [state.Insert(key, value, NodeResolveFn)],
    [state.Get(key, NodeResolveFn)] (whose error result is always dropped)
    and [state.GetValueOrZero(key)]. *)
Class KVStorage (S : Type) : Type := {
  Insert : S -> list Z -> list Z -> result S;
  Get : S -> list Z -> result (option (list Z));
  GetValueOrZero : S -> list Z -> result Z
}.

(** Modelled from the spec: the methods by which [Header] implements
    [KVStorage], which are not in header.go.  Section 4.C gives the store
    contract: [Insert] is the staged [insert], [Get] the direct read [get]
    of the tree, and [GetValueOrZero] the 256-bit read that is zero when
    the key is absent ([GetUInt256]). *)
#[export] Instance Header_KVStorage : KVStorage Header := {
  Insert := insert;
  Get := get;
  GetValueOrZero := GetUInt256
}.

(** Modelled from the spec: [convertIntToByte] and [convertByteToInt],
    declared outside brc20.go; section 4.D stores a 256-bit integer as a
    32-byte big-endian slot and reads a missing value as zero. *)
Definition convertIntToByte (v : Z) : list Z := WriteToArray32 v.
Definition convertByteToInt (value : option (list Z)) : Z :=
  SetBytes (default [] value).

(** The record the getter yields for one inscription movement. *)
Record OrdTransfer : Type := mkOrdTransfer {
  ID : Z;
  InscriptionID : string;
  OldSatpoint : string;
  NewPkscript : string;
  NewWallet : string;
  SentAsFee : bool;
  ContentType : string;
  Content : string
}.

(** State ids and event ids. *)
Definition AvailableBalancePkscript : Z := 0.
Definition AvailableBalance : Z := 1.
Definition OverallBalancePkscript : Z := 2.
Definition OverallBalance : Z := 3.
Definition Exists : Z := 4.
Definition RemainingSupply : Z := 5.
Definition MaxSupply : Z := 6.
Definition LimitPerMint : Z := 7.
Definition Decimals : Z := 8.

Definition TransferInscribeSourceWallet : list Z := [0; 0; 0; 0].
Definition TransferInscribeSourcePkscript1 : list Z := [1; 0; 0; 0].
Definition TransferInscribeSourcePkscript2 : list Z := [2; 0; 0; 0].
Definition TransferTransferCount : list Z := [3; 0; 0; 0].
Definition TransferInscribeCount : list Z := [4; 0; 0; 0].

(** Control flow of one iteration of the loop of [Exec]: a block either
    falls through to the next statement, or executes [continue], or
    panics. *)
Inductive flow (S : Type) : Type :=
  | Next (s : S)
  | Continue (s : S)
  | Abort (p : panic).
Arguments Next {S} s.
Arguments Continue {S} s.
Arguments Abort {S} p.

Definition run {S A} (m : result A) (k : A -> flow S) : flow S :=
  match m with
  | Ok a => k a
  | Panic p => Abort p
  end.

Notation "x <-? m ; k" := (run m (fun x => k))
  (at level 100, m at next level, right associativity, only parsing).

Definition u256_add (a b : Z) : Z := u256_wrap (a + b).
Definition u256_sub (a b : Z) : Z := u256_wrap (a - b).

(** ** The collaborators of brc20.go

    Library functions ([sha3.New224], [json.Unmarshal] into a
    [map[string]string], [strings.ToLower], [strconv.Atoi]), the Bitcoin
    address decoder, and the helpers of the package that are declared
    outside brc20.go.  They are left abstract: the interpreter is
    embedded over any implementation of them.

    - [getNumberExtendedTo18Decimals s dec strict] is [None] when the Go
      function returns an error or a nil number;
    - [decodeBitcoinAddress] and [padTo32Bytes] give the byte slice they
      return, their error result being dropped at every call. *)
Class Environment : Type := {
  keccak224 : string -> list Z;
  Unmarshal : string -> gmap string string;
  ToLower : string -> string;
  Atoi : string -> option Z;
  decodeBitcoinAddress : string -> list Z;
  getLimit : Z;
  isPositiveNumber : string -> bool -> bool;
  isPositiveNumberWithDot : string -> bool -> bool;
  getNumberExtendedTo18Decimals : string -> Z -> bool -> option Z;
  padTo32Bytes : list Z -> list Z
}.

(** ** brc20.go *)

Section Interpreter.
Context {S : Type} {store : KVStorage S} {env : Environment}.

(** [prefixHash[:n]]. *)
Definition digest_prefix (prefixHash : list Z) (n : nat) : result (list Z) :=
  if (n <=? length prefixHash)%nat then Ok (take n prefixHash)
  else Panic SliceBounds.

Definition GetHash (stateID : Z) (uniqueID tick : string) : result (list Z) :=
  let prefixHash := keccak224 uniqueID in
  let len_tick := String.length tick in
  if negb ((len_tick =? 4)%nat || (len_tick =? 5)%nat) then Panic TickLength else
  res <-! (if (len_tick =? 4)%nat
           then p <-! digest_prefix prefixHash 27;
                Ok (p ++ [stateID] ++ bytes_of_string tick)
           else p <-! digest_prefix prefixHash 26;
                Ok (p ++ [stateID] ++ bytes_of_string tick));
  if negb (length res =? 32)%nat then Panic KeyNot32 else Ok res.

Definition GetTickStatus (tick : string)
    : result (list Z * list Z * list Z * list Z * list Z) :=
  k1 <-! GetHash Exists "" tick;
  k2 <-! GetHash RemainingSupply "" tick;
  k3 <-! GetHash MaxSupply "" tick;
  k4 <-! GetHash LimitPerMint "" tick;
  k5 <-! GetHash Decimals "" tick;
  Ok (k1, k2, k3, k4, k5).

Definition GetEventHash (eventID : list Z) (inscrID : string) : list Z :=
  eventID ++ keccak224 inscrID.

Definition deployInscribe (state : S) (inscrID newPkscript newAddr tick : string)
    (maxSupply decimals limitPerMint : Z) : result S :=
  keys <-! GetTickStatus tick;
  let '(keyExists, keyRemainingSupply, keyMaxSupply, keyLimitPerMint, keyDecimals) := keys in
  state <-! Insert state keyExists (convertIntToByte 0);
  state <-! Insert state keyRemainingSupply (convertIntToByte maxSupply);
  state <-! Insert state keyMaxSupply (convertIntToByte maxSupply);
  state <-! Insert state keyLimitPerMint (convertIntToByte limitPerMint);
  Insert state keyDecimals (convertIntToByte decimals).

Definition mintInscribe (state : S) (inscrID newPkscript newAddr tick : string)
    (amount : Z) : result S :=
  let newAddr := string_of_bytes (decodeBitcoinAddress newAddr) in
  (* store tick + pkscript *)
  availableKey <-! GetHash AvailableBalancePkscript newPkscript tick;
  overallKey <-! GetHash OverallBalancePkscript newPkscript tick;
  prevAvailableBalance <-! GetValueOrZero state availableKey;
  prevOverallBalance <-! GetValueOrZero state overallKey;
  let newAvailableBalance := u256_add prevAvailableBalance amount in
  let newOverallBalance := u256_add prevOverallBalance amount in
  state <-! Insert state availableKey (convertIntToByte newAvailableBalance);
  state <-! Insert state overallKey (convertIntToByte newOverallBalance);
  (* store tick + wallet *)
  availableKey <-! GetHash AvailableBalance newAddr tick;
  overallKey <-! GetHash OverallBalance newAddr tick;
  state <-! Insert state availableKey (convertIntToByte newAvailableBalance);
  state <-! Insert state overallKey (convertIntToByte newOverallBalance);
  (* update tick info *)
  keys <-! GetTickStatus tick;
  let '(_, keyRemainingSupply, _, _, _) := keys in
  prevRemainingSupply <-! Get state keyRemainingSupply;
  let newRemainingSupply := u256_sub (convertByteToInt prevRemainingSupply) amount in
  Insert state keyRemainingSupply (convertIntToByte newRemainingSupply).

(** save decoded wallet address and pkscript *)
Definition saveSourceWalletAndPkscript (state : S)
    (inscrID sourceAddr pkScript : string) : result S :=
  let eventKey := GetEventHash TransferInscribeSourceWallet inscrID in
  state <-! Insert state eventKey (bytes_of_string sourceAddr);
  let length_ := String.length pkScript in
  let prefix := [byte_wrap (Z.of_nat length_)] in
  let pkScript := if (length_ mod 2 =? 1)%nat then (pkScript +:+ "0")%string else pkScript in
  let encodedPkscript := prefix ++ fst (hex_DecodeString pkScript) in
  let pkScriptKey1 := GetEventHash TransferInscribeSourcePkscript1 inscrID in
  let b1 := padTo32Bytes (take (Nat.min (length encodedPkscript) 32) encodedPkscript) in
  state <-! Insert state pkScriptKey1 b1;
  if (32 <? length encodedPkscript)%nat then
    let pkScriptKey2 := GetEventHash TransferInscribeSourcePkscript2 inscrID in
    let b2 := padTo32Bytes (drop 32 encodedPkscript) in
    Insert state pkScriptKey2 b2
  else Ok state.

(** get decoded wallet address and pkscript *)
Definition getSourceWalletAndPkscript (state : S) (inscrID : string)
    : result (string * string) :=
  let eventKey := GetEventHash TransferInscribeSourceWallet inscrID in
  sourceAddr <-! Get state eventKey;
  let pkScriptKey1 := GetEventHash TransferInscribeSourcePkscript1 inscrID in
  let pkScriptKey2 := GetEventHash TransferInscribeSourcePkscript2 inscrID in
  b1 <-! Get state pkScriptKey1;
  b2 <-! Get state pkScriptKey2;
  let b := default [] b1 ++ default [] b2 in
  match b with
  | [] => Panic IndexOutOfRange
  | length_ :: tail =>
      sourcePkscript <-! string_prefix (hex_EncodeToString tail) (Z.to_nat length_);
      Ok (string_of_bytes (default [] sourceAddr), sourcePkscript)
  end.

Definition transferInscribe (state : S)
    (inscrID sourcePkScript sourceAddr tick : string)
    (amount availableBalance : Z) : result S :=
  let sourceAddr := string_of_bytes (decodeBitcoinAddress sourceAddr) in
  let newAvailableBalance := u256_sub availableBalance amount in
  availableKey <-! GetHash AvailableBalance sourceAddr tick;
  state <-! Insert state availableKey (convertIntToByte newAvailableBalance);
  availableKey <-! GetHash AvailableBalancePkscript sourcePkScript tick;
  state <-! Insert state availableKey (convertIntToByte newAvailableBalance);
  (* store transfer-inscribe event *)
  state <-! saveSourceWalletAndPkscript state inscrID sourceAddr sourcePkScript;
  (* update transfer-inscribe event count *)
  let eventCntKey := GetEventHash TransferInscribeCount inscrID in
  cnt <-! GetValueOrZero state eventCntKey;
  let newEventCnt := u256_add cnt 1 in
  Insert state eventCntKey (convertIntToByte newEventCnt).

Definition isUsedOrInvalid (state : S) (inscrID : string) : result bool :=
  let tIEventKey := GetEventHash TransferInscribeCount inscrID in
  transferInscribeCnt <-! GetValueOrZero state tIEventKey;
  let tTEventKey := GetEventHash TransferTransferCount inscrID in
  transferTransferCnt <-! GetValueOrZero state tTEventKey;
  Ok (negb (transferInscribeCnt =? 1) || negb (transferTransferCnt =? 0)).

Definition transferTransferSpendToFee (state : S) (inscrID tick : string)
    (amount : Z) (txId : Z) : result S :=
  source <-! getSourceWalletAndPkscript state inscrID;
  let '(sourceAddr, sourcePkScript) := source in
  availableKey <-! GetHash AvailableBalance sourceAddr tick;
  lastAvailableBalance <-! GetValueOrZero state availableKey;
  let newAvailableBalance := u256_add lastAvailableBalance amount in
  state <-! Insert state availableKey (convertIntToByte newAvailableBalance);
  availableKey <-! GetHash AvailableBalancePkscript sourcePkScript tick;
  state <-! Insert state availableKey (convertIntToByte newAvailableBalance);
  (* update transfer-transfer event count *)
  let eventCntKey := GetEventHash TransferTransferCount inscrID in
  cnt <-! GetValueOrZero state eventCntKey;
  let newTransferTransferCnt := u256_add cnt 1 in
  Insert state eventCntKey (convertIntToByte newTransferTransferCnt).

Definition transferTransferNormal (state : S)
    (inscrID spentPkScript spentAddr tick : string)
    (amount : Z) (txId : Z) : result S :=
  let spentAddr := string_of_bytes (decodeBitcoinAddress spentAddr) in
  source <-! getSourceWalletAndPkscript state inscrID;
  let '(sourceAddr, sourcePkScript) := source in
  sourceOverallKey <-! GetHash OverallBalance sourceAddr tick;
  sourceOverall <-! GetValueOrZero state sourceOverallKey;
  let newSourceOverallBalance := u256_sub sourceOverall amount in
  state <-! Insert state sourceOverallKey (convertIntToByte newSourceOverallBalance);
  sourcePkOverallKey <-! GetHash OverallBalancePkscript sourcePkScript tick;
  state <-! Insert state sourcePkOverallKey (convertIntToByte newSourceOverallBalance);
  spentAvailableKey <-! GetHash AvailableBalance spentAddr tick;
  spentOverallKey <-! GetHash OverallBalance spentAddr tick;
  spentAvailable <-! GetValueOrZero state spentAvailableKey;
  spentOverall <-! GetValueOrZero state spentOverallKey;
  let newSpentAvailableBalance := u256_add spentAvailable amount in
  let newSpentOverallBalance := u256_add spentOverall amount in
  state <-! Insert state spentAvailableKey (convertIntToByte newSpentAvailableBalance);
  state <-! Insert state spentOverallKey (convertIntToByte newSpentOverallBalance);
  spentAvailableKey <-! GetHash AvailableBalancePkscript spentPkScript tick;
  spentOverallKey <-! GetHash OverallBalancePkscript spentPkScript tick;
  state <-! Insert state spentAvailableKey (convertIntToByte newSpentAvailableBalance);
  state <-! Insert state spentOverallKey (convertIntToByte newSpentOverallBalance);
  (* update transfer-transfer event count *)
  let eventCntKey := GetEventHash TransferTransferCount inscrID in
  cnt <-! GetValueOrZero state eventCntKey;
  let newTransferTransferCnt := u256_add cnt 1 in
  Insert state eventCntKey (convertIntToByte newTransferTransferCnt).

(** [js[k]] when the key may be missing: Go yields the empty string. *)
Definition js_get (js : gmap string string) (k : string) : string :=
  default ""%string (js !! k).

(** The [if js["op"] == "deploy" && oldSatpoint == ""] block. *)
Definition handle_deploy (upperLimit : Z) (state : S) (transfer : OrdTransfer)
    (js : gmap string string) (tick : string) : flow S :=
  if String.eqb (js_get js "op") "deploy" && String.eqb (OldSatpoint transfer) "" then
    match js !! "max" with
    | None => Continue state (* invalid inscription *)
    | Some maxSupplyValue =>
        keys <-? GetTickStatus tick;
        let '(keyExists, _, _, _, _) := keys in
        v <-? Get state keyExists;
        if negb (length (default [] v) =? 0)%nat then Continue state (* already deployed *) else
        let decimals_opt :=
          match js !! "dec" with
          | None => Some 18
          | Some decValue =>
              if negb (isPositiveNumber decValue false) then None (* invalid decimals *)
              else match Atoi decValue with
                   | None => None
                   | Some decimalsInt => Some (u256_wrap decimalsInt)
                   end
          end in
        match decimals_opt with
        | None => Continue state
        | Some decimals =>
            if 18 <? decimals then Continue state (* invalid decimals *) else
            if negb (isPositiveNumberWithDot maxSupplyValue false) then Continue state else
            match getNumberExtendedTo18Decimals maxSupplyValue decimals false with
            | None => Continue state (* invalid max supply *)
            | Some maxSupply =>
                if (upperLimit <? maxSupply) || (maxSupply =? 0) then Continue state else
                let limit_opt :=
                  match js !! "lim" with
                  | None => Some maxSupply
                  | Some lim =>
                      if negb (isPositiveNumberWithDot lim false) then None
                      else match getNumberExtendedTo18Decimals lim decimals false with
                           | None => None
                           | Some limitPerMint =>
                               if (upperLimit <? limitPerMint) || (limitPerMint =? 0)
                               then None else Some limitPerMint
                           end
                  end in
                match limit_opt with
                | None => Continue state (* invalid limit per mint *)
                | Some limitPerMint =>
                    state <-? deployInscribe state (InscriptionID transfer)
                                (NewPkscript transfer) (NewWallet transfer) tick
                                maxSupply decimals limitPerMint;
                    Next state
                end
            end
        end
    end
  else Next state.

(** The [if js["op"] == "mint" && oldSatpoint == ""] block. *)
Definition handle_mint (upperLimit : Z) (state : S) (transfer : OrdTransfer)
    (js : gmap string string) (tick : string) : flow S :=
  if String.eqb (js_get js "op") "mint" && String.eqb (OldSatpoint transfer) "" then
    match js !! "amt" with
    | None => Continue state (* invalid inscription *)
    | Some amountString =>
        keys <-? GetTickStatus tick;
        let '(keyExists, keyRemainingSupply, _, keyLimitPerMint, keyDecimals) := keys in
        tickExists <-? Get state keyExists;
        if (length (default [] tickExists) =? 0)%nat then Continue state (* not deployed *) else
        remainingSupplyBytes <-? Get state keyRemainingSupply;
        limitPerMintBytes <-? Get state keyLimitPerMint;
        decimalsBytes <-? Get state keyDecimals;
        let remainingSupply := convertByteToInt remainingSupplyBytes in
        let limitPerMint := convertByteToInt limitPerMintBytes in
        let decimals := convertByteToInt decimalsBytes in
        if negb (isPositiveNumberWithDot amountString false) then Continue state else
        match getNumberExtendedTo18Decimals amountString decimals false with
        | None => Continue state (* invalid amount *)
        | Some amount =>
            if (upperLimit <? amount) || (amount =? 0) then Continue state else
            if remainingSupply =? 0 then Continue state (* mint ended *) else
            if limitPerMint <? amount then Continue state (* mint too much *) else
            let amount := if remainingSupply <? amount then remainingSupply else amount in
            state <-? mintInscribe state (InscriptionID transfer) (NewPkscript transfer)
                        (NewWallet transfer) tick amount;
            Next state
        end
    end
  else Next state.

(** The [if js["op"] == "transfer"] block. *)
Definition handle_transfer (upperLimit : Z) (state : S) (transfer : OrdTransfer)
    (js : gmap string string) (tick : string) : flow S :=
  if String.eqb (js_get js "op") "transfer" then
    match js !! "amt" with
    | None => Continue state (* invalid inscription *)
    | Some amountString =>
        keys <-? GetTickStatus tick;
        let '(keyExists, _, _, _, keyDecimals) := keys in
        tickExists <-? Get state keyExists;
        decimalBytes <-? Get state keyDecimals;
        if (length (default [] tickExists) =? 0)%nat then Continue state (* not deployed *) else
        let deicmals := convertByteToInt decimalBytes in
        if negb (isPositiveNumberWithDot amountString false) then Continue state else
        match getNumberExtendedTo18Decimals amountString deicmals false with
        | None => Continue state (* invalid amount *)
        | Some amount =>
            if (upperLimit <? amount) || (amount =? 0) then Continue state else
            (* check if available balance is enough *)
            if String.eqb (OldSatpoint transfer) "" then
              key <-? GetHash AvailableBalancePkscript (NewPkscript transfer) tick;
              availableBalance <-? GetValueOrZero state key;
              if availableBalance <? amount then Continue state (* not enough *)
              else
                state <-? transferInscribe state (InscriptionID transfer)
                            (NewPkscript transfer) (NewWallet transfer) tick
                            amount availableBalance;
                Next state
            else
              used <-? isUsedOrInvalid state (InscriptionID transfer);
              if used : bool then Continue state (* already used or invalid *)
              else if SentAsFee transfer then
                state <-? transferTransferSpendToFee state (InscriptionID transfer)
                            tick amount (ID transfer);
                Next state
              else
                state <-? transferTransferNormal state (InscriptionID transfer)
                            (NewPkscript transfer) (NewWallet transfer) tick
                            amount (ID transfer);
                Next state
        end
    end
  else Next state.

Definition then_ (m : flow S) (k : S -> flow S) : flow S :=
  match m with
  | Next s => k s
  | Continue s => Continue s
  | Abort p => Abort p
  end.

(** The body of the loop of [Exec], for one record. *)
Definition Exec_body (upperLimit : Z) (state : S) (transfer : OrdTransfer) : flow S :=
  let contentType := ContentType transfer in
  let js := Unmarshal (Content transfer) in
  if SentAsFee transfer && String.eqb (OldSatpoint transfer) "" then Continue state (* inscribed as fee *) else
  if String.eqb contentType "" then Continue state (* invalid inscription *) else
  let contentType :=
    let '(decodedBytes, ok) := hex_DecodeString contentType in
    if ok : bool then string_of_bytes decodedBytes else contentType in
  let contentType := before_semicolon contentType in
  if negb (String.eqb contentType "application/json")
     && negb (String.eqb contentType "text/plain")
  then Continue state (* invalid inscription *) else
  match js !! "tick" with
  | None => Continue state (* invalid inscription *)
  | Some tick =>
      match js !! "op" with
      | None => Continue state (* invalid inscription *)
      | Some _ =>
          let tick := ToLower tick in
          if negb (String.length tick =? 4)%nat then Continue state (* invalid tick *) else
          then_ (handle_deploy upperLimit state transfer js tick) (fun state =>
          then_ (handle_mint upperLimit state transfer js tick) (fun state =>
          handle_transfer upperLimit state transfer js tick))
      end
  end.

Fixpoint Exec_loop (upperLimit : Z) (state : S) (ordTransfer : list OrdTransfer)
    : result S :=
  match ordTransfer with
  | [] => Ok state
  | transfer :: rest =>
      match Exec_body upperLimit state transfer with
      | Next state' | Continue state' => Exec_loop upperLimit state' rest
      | Abort p => Panic p
      end
  end.

(** Input previous verkle tree and all ord records in a block, then get
    the K-V array that the verkle tree should update. *)
Definition Exec (state : S) (ordTransfer : list OrdTransfer) : result S :=
  let upperLimit := getLimit in
  if (length ordTransfer =? 0)%nat then Ok state
  else Exec_loop upperLimit state ordTransfer.

End Interpreter.

(** ** A concrete environment

    To run the interpreter on concrete records the collaborators need
    values.  The ones below are small executable stand-ins; the general
    theorems do not depend on them. *)
Module Standin.

(** Stand-in for SHA3-224: 28 bytes, beginning with 255, then the bytes
    of the input, zero-padded.  Inputs of at most 27 bytes without
    trailing zero bytes get distinct digests. *)
Definition digest (s : string) : list Z :=
  take 28 (255 :: bytes_of_string s ++ replicate 28 0).

(** Stand-in for [json.Unmarshal] on flat objects written without
    whitespace and escapes, as [{"k":"v","k2":"v2"}]; anything else
    yields the empty map. *)
Definition dquote : ascii := Ascii.ascii_of_nat 34.

Fixpoint until_quote (l acc : list ascii) : option (string * list ascii) :=
  match l with
  | [] => None
  | c :: rest =>
      if Ascii.eqb c dquote
      then Some (String.string_of_list_ascii (rev acc), rest)
      else until_quote rest (c :: acc)
  end.

Fixpoint members (fuel : nat) (l : list ascii) (m : gmap string string)
    : option (gmap string string) :=
  match fuel with
  | O => None
  | Datatypes.S fuel' =>
      match l with
      | q :: rest =>
          if Ascii.eqb q dquote then
            match until_quote rest [] with
            | Some (k, c1 :: q1 :: rest1) =>
                if Ascii.eqb c1 ":"%char && Ascii.eqb q1 dquote then
                  match until_quote rest1 [] with
                  | Some (v, sep :: rest2) =>
                      if Ascii.eqb sep ","%char then members fuel' rest2 (<[k := v]> m)
                      else if Ascii.eqb sep "}"%char
                      then match rest2 with [] => Some (<[k := v]> m) | _ => None end
                      else None
                  | _ => None
                  end
                else None
            | _ => None
            end
          else None
      | [] => None
      end
  end.

Definition unmarshal (content : string) : gmap string string :=
  match String.list_ascii_of_string content with
  | c :: rest =>
      if Ascii.eqb c "{"%char
      then default ∅ (members (Datatypes.S (length rest)) rest ∅)
      else ∅
  | [] => ∅
  end.

(** Stand-in for [strings.ToLower] on ASCII. *)
Definition lower_byte (b : Z) : Z :=
  if (65 <=? b) && (b <=? 90) then b + 32 else b.
Definition to_lower (s : string) : string :=
  string_of_bytes (map lower_byte (bytes_of_string s)).

Definition is_digit (b : Z) : bool := (48 <=? b) && (b <=? 57).

Definition digits_value (l : list Z) : Z :=
  fold_left (fun acc b => acc * 10 + (b - 48)) l 0.

(** Stand-in for [strconv.Atoi] on unsigned decimal strings. *)
Definition atoi (s : string) : option Z :=
  let l := bytes_of_string s in
  if negb (length l =? 0)%nat && forallb is_digit l && (digits_value l <? 2 ^ 63)
  then Some (digits_value l) else None.

(** Stand-in for the address decoder: the bytes of the address on a
    32-byte slot. *)
Definition decode_address (addr : string) : list Z :=
  copy_into 32 (bytes_of_string addr).

(** Modelled from the spec: [isPositiveNumber] (section 4.A,
    [is_positive_decimal] without a dot): a non-empty string of
    digits. *)
Definition is_positive_number (s : string) (strip : bool) : bool :=
  let l := bytes_of_string s in
  negb (length l =? 0)%nat && forallb is_digit l.

Fixpoint split_dot (l : list Z) : list Z * option (list Z) :=
  match l with
  | [] => ([], None)
  | c :: rest =>
      if c =? 46 then ([], Some rest)
      else let '(a, b) := split_dot rest in (c :: a, b)
  end.

(** Modelled from the spec: [isPositiveNumberWithDot] (section 4.A,
    [is_positive_decimal] with a dot): digits, optionally followed by a
    dot and digits, at least one digit on each side. *)
Definition is_positive_number_with_dot (s : string) (strip : bool) : bool :=
  match split_dot (bytes_of_string s) with
  | (a, None) => negb (length a =? 0)%nat && forallb is_digit a
  | (a, Some b) =>
      negb (length a =? 0)%nat && forallb is_digit a
      && negb (length b =? 0)%nat && forallb is_digit b
  end.

(** Modelled from the spec: [getNumberExtendedTo18Decimals] (section
    4.A, [to_18dp]): the integer part times 10^18 plus the fraction
    scaled to 18 places; no result when the fraction has more digits
    than [decimals], when [decimals > 18], or on overflow of 256 bits. *)
Definition to_18dp (s : string) (decimals : Z) (strip : bool) : option Z :=
  if 18 <? decimals then None else
  let '(a, b) := split_dot (bytes_of_string s) in
  let frac := default [] b in
  if Z.of_nat (length frac) >? decimals then None else
  let v := digits_value a * 10 ^ 18
           + digits_value frac * 10 ^ (18 - Z.of_nat (length frac)) in
  if v <? 2 ^ 256 then Some v else None.

(** Stand-in for [padTo32Bytes]: zero padding on the right up to 32
    bytes; nothing for a longer input. *)
Definition pad_to_32 (input : list Z) : list Z :=
  if (length input <=? 32)%nat then copy_into 32 input else [].

(** The upper limit of the BRC-20 protocol, (2^64 - 1) * 10^18. *)
Definition upper_limit : Z := (2 ^ 64 - 1) * 10 ^ 18.

Definition environment : Environment := {|
  keccak224 := digest;
  Unmarshal := unmarshal;
  ToLower := to_lower;
  Atoi := atoi;
  decodeBitcoinAddress := decode_address;
  getLimit := upper_limit;
  isPositiveNumber := is_positive_number;
  isPositiveNumberWithDot := is_positive_number_with_dot;
  getNumberExtendedTo18Decimals := to_18dp;
  padTo32Bytes := pad_to_32
|}.

(** A getter whose [GetBlockHash] always succeeds, and one that always
    fails. *)
Definition getter_ok (height : Z) : string + string := inl "blockhash"%string.
Definition getter_down (height : Z) : string + string := inr "unreachable"%string.

(** One block: [Exec] on the batch, then [Paging] without hash query.
    A panic leaves no header. *)
Definition block (h : Header) (batch : list OrdTransfer) : result Header :=
  h' <-! Exec (env := environment) h batch;
  Ok (fst (Paging h' getter_ok false)).

Fixpoint blocks (h : Header) (batches : list (list OrdTransfer)) : result Header :=
  match batches with
  | [] => Ok h
  | b :: rest => h' <-! block h b; blocks h' rest
  end.

(** An inscription record: creation when [old] is empty, movement
    otherwise. *)
Definition record (id old pk wallet : string) (fee : bool) (content : string)
    : OrdTransfer :=
  {| ID := 0; InscriptionID := id; OldSatpoint := old; NewPkscript := pk;
     NewWallet := wallet; SentAsFee := fee;
     ContentType := "text/plain;charset=utf-8"; Content := content |}.

(** [quoted s] is [s] between double quotes; [json op tick field value]
    is the inscription content
    [{"p":"brc-20","op":op,"tick":tick,field:value}], every member a
    string. *)
Definition quoted (s : string) : string :=
  (String dquote s +:+ String dquote EmptyString)%string.

Fixpoint json_members (fields : list (string * string)) : string :=
  match fields with
  | [] => ""
  | [(k, v)] => quoted k +:+ ":" +:+ quoted v
  | (k, v) :: rest => quoted k +:+ ":" +:+ quoted v +:+ "," +:+ json_members rest
  end%string.

(** The flat JSON object with the given members, every value a string. *)
Definition json_fields (fields : list (string * string)) : string :=
  ("{" +:+ json_members fields +:+ "}")%string.

Definition json (op tick field value : string) : string :=
  ("{" +:+ quoted "p" +:+ ":" +:+ quoted "brc-20" +:+ ","
       +:+ quoted "op" +:+ ":" +:+ quoted op +:+ ","
       +:+ quoted "tick" +:+ ":" +:+ quoted tick +:+ ","
       +:+ quoted field +:+ ":" +:+ quoted value +:+ "}")%string.

End Standin.

(** ** Vocabulary of the properties *)

(** The value the pending log holds for [key]: the [NewValue] of its last
    entry on [key], if any. *)
Fixpoint staged_value (log : list TripleElement) (key : list Z) : option (list Z) :=
  match log with
  | [] => None
  | e :: rest =>
      match staged_value rest key with
      | Some v => Some v
      | None => if decide (Key e = key) then Some (NewValue e) else None
      end
  end.

(** What a map holds at [key] once [log] has been paged into it. *)
Definition paged_lookup (m : gmap (list Z) (list Z)) (log : list TripleElement)
    (key : list Z) : option (list Z) :=
  match staged_value log key with
  | Some v => Some v
  | None => m !! key
  end.

(** The array [insert] records as the old value of [key]. *)
Definition committed_array (h : Header) (key : list Z) : list Z :=
  match Root h !! key with
  | Some o => copy_into ValueSize o
  | None => replicate ValueSize 0
  end.

Definition committed_exists (h : Header) (key : list Z) : bool :=
  match Root h !! key with Some _ => true | None => false end.

(** The header a successful [insert] of [value] at [key] leaves. *)
Definition push (h : Header) (key value : list Z) : Header :=
  {| Root := Root h; KV := KV h;
     Temp := Temp h ++ [ {| Key := key; OldValue := committed_array h key;
                            NewValue := value;
                            OldValueExists := committed_exists h key |} ];
     Height := Height h; Hash := Hash h |}.

(** The writes of a log, in order: key and new value of each entry. *)
Definition writes_of (log : list TripleElement) : list (list Z * list Z) :=
  map (fun e => (Key e, NewValue e)) log.

(** [h'] differs from [h] by the staged writes [ws] only, each of a
    32-byte value at a 32-byte key. *)
Definition staged (h h' : Header) (ws : list (list Z * list Z)) : Prop :=
  Root h' = Root h /\ KV h' = KV h /\ Height h' = Height h /\ Hash h' = Hash h /\
  (exists es, Temp h' = Temp h ++ es /\ writes_of es = ws) /\
  Forall (fun kv => length kv.1 = 32%nat /\ length kv.2 = 32%nat) ws.

(** The statement of the specification on a failing [Paging]: the store is
    as it was before the call. *)
Definition paging_error_leaves_store {E} (h : Header) (GetBlockHash : Z -> string + E) : Prop :=
  forall h' err, Paging h GetBlockHash true = (h', Some err) ->
    KV h' = KV h /\ Root h' = Root h /\ Temp h' = Temp h /\ Height h' = Height h.

(** The entries staged between [h] and a later header [h']. *)
Definition new_entries (h h' : Header) : list TripleElement :=
  drop (length (Temp h)) (Temp h').


(** The wallet-keyed and pkscript-keyed balances of a holder agree, for
    the available and for the overall balance. *)
Definition holder_consistent {env : Environment} (h : Header)
    (wallet pkscript tick : string) : Prop :=
  let addr := string_of_bytes (decodeBitcoinAddress wallet) in
  exists kaw kap kow kop,
    GetHash AvailableBalance addr tick = Ok kaw /\
    GetHash AvailableBalancePkscript pkscript tick = Ok kap /\
    GetHash OverallBalance addr tick = Ok kow /\
    GetHash OverallBalancePkscript pkscript tick = Ok kop /\
    GetUInt256 h kaw = GetUInt256 h kap /\ GetUInt256 h kow = GetUInt256 h kop.

(** The headers reached from an empty store by calls of [Exec] and of
    [Paging]; [paged] lists the records of the batches that have been
    paged, [pending] those handed to [Exec] since the last [Paging]. *)
Inductive reachable {env : Environment}
    : list OrdTransfer -> list OrdTransfer -> Header -> Prop :=
  | reach_new height hash : reachable [] [] (NewHeader height hash)
  | reach_exec paged pending h batch h' :
      reachable paged pending h -> Exec h batch = Ok h' ->
      reachable paged (pending ++ batch) h'
  | reach_paging paged pending h (GetBlockHash : Z -> string + string) queryHash :
      reachable paged pending h ->
      reachable (paged ++ pending) [] (fst (Paging h GetBlockHash queryHash)).





(** The five event ids. *)
Definition event_ids : list (list Z) :=
  [ TransferInscribeSourceWallet; TransferInscribeSourcePkscript1;
    TransferInscribeSourcePkscript2; TransferTransferCount; TransferInscribeCount ].

(** The last value a list of writes gives to [key]. *)
Fixpoint last_write (ws : list (list Z * list Z)) (key : list Z) : option (list Z) :=
  match ws with
  | [] => None
  | (k, v) :: rest =>
      match last_write rest key with
      | Some v' => Some v'
      | None => if decide (k = key) then Some v else None
      end
  end.

(** The value [Paging] will leave at [key]: the last one staged for it,
    or else the committed one. *)
Definition view (h : Header) (key : list Z) : option (list Z) :=
  paged_lookup (Root h) (Temp h) key.

(** The holder with wallet key [wallet] and pkscript [pkscript] has, in
    the view of [h], the same available and the same overall balance under
    its wallet-keyed and its pkscript-keyed entries of [tick]. *)
Definition paired_view {env : Environment} (h : Header) (wallet pkscript tick : string)
    : Prop :=
  forall kaw kap kow kop,
    GetHash AvailableBalance wallet tick = Ok kaw ->
    GetHash AvailableBalancePkscript pkscript tick = Ok kap ->
    GetHash OverallBalance wallet tick = Ok kow ->
    GetHash OverallBalancePkscript pkscript tick = Ok kop ->
    view h kaw = view h kap /\ view h kow = view h kop.

(** Wallets and pkscripts of [holders] are paired one to one: two holders
    share their wallet-keyed entries exactly when they share their
    pkscript-keyed entries. *)
Definition one_to_one {env : Environment} (holders : list (string * string))
    (tick : string) : Prop :=
  forall w1 p1 w2 p2, (w1, p1) ∈ holders -> (w2, p2) ∈ holders ->
    (GetHash AvailableBalance w1 tick = GetHash AvailableBalance w2 tick <->
     GetHash AvailableBalancePkscript p1 tick = GetHash AvailableBalancePkscript p2 tick) /\
    (GetHash OverallBalance w1 tick = GetHash OverallBalance w2 tick <->
     GetHash OverallBalancePkscript p1 tick = GetHash OverallBalancePkscript p2 tick).

Module Scenario.
Import Standin.

Definition h0 : Header := NewHeader 0 "".

Definition key0 : list Z := replicate 32 0.

(** A header with one staged write, at height 7. *)
Definition pending : Header :=
  {| Root := ∅; KV := ∅;
     Temp := [ {| Key := key0; OldValue := replicate 32 0;
                  NewValue := replicate 32 9; OldValueExists := false |} ];
     Height := 7; Hash := "old" |}.

(** Inscriptions on the tick "test".  Holder A has pkscript "aa",
    holder B "bb", holder C "cc". *)
Definition deploy1000 : OrdTransfer :=
  record "i0" "" "aa" "walletA" false (json "deploy" "test" "max" "1000").
Definition deploy9999 : OrdTransfer :=
  record "i9" "" "aa" "walletA" false (json "deploy" "test" "max" "9999").
Definition mint500 : OrdTransfer :=
  record "i1" "" "aa" "walletA" false (json "mint" "test" "amt" "500").

(** The key of a registry or balance entry of tick "test". *)
Definition key_of (stateID : Z) (uniqueID : string) : list Z :=
  match GetHash (env := environment) stateID uniqueID "test" with
  | Ok k => k
  | Panic _ => []
  end.

(** The header a computation leaves, [h0] if it panicked. *)
Definition header_of (r : result Header) : Header :=
  match r with Ok h => h | Panic _ => h0 end.

(** Whether a computation ended without panic. *)
Definition is_ok {A : Type} (r : result A) : bool :=
  match r with Ok _ => true | Panic _ => false end.

(** A run of blocks from the empty store: whether it completes, and the
    header it leaves. *)
Definition completes (batches : list (list OrdTransfer)) : Prop :=
  is_ok (blocks h0 batches) = true.
Definition final (batches : list (list OrdTransfer)) : Header :=
  header_of (blocks h0 batches).

(** After the deploy alone, not paged. *)
Definition deploy_staged : Header :=
  header_of (Exec_loop (env := environment) upper_limit h0 [deploy1000]).

(** After one block holding the deploy. *)
Definition deployed : Header := header_of (blocks h0 [[deploy1000]]).

(** The deploy of scenario 1 of the specification: max 1000, dec 18. *)
Definition deploy1000dec18 : OrdTransfer :=
  record "i0" "" "aa" "walletA" false
    (json_fields [("p", "brc-20"); ("op", "deploy"); ("tick", "test");
                  ("max", "1000"); ("dec", "18")]%string).

Definition deployed18 : Header := header_of (blocks h0 [[deploy1000dec18]]).

(** Scenario 2 of the specification: max 1000, lim 100, then a mint of
    150. *)
Definition deploy1000lim100 : OrdTransfer :=
  record "i0" "" "aa" "walletA" false
    (json_fields [("p", "brc-20"); ("op", "deploy"); ("tick", "test");
                  ("max", "1000"); ("lim", "100")]%string).
Definition mint150 : OrdTransfer :=
  record "i2" "" "aa" "walletA" false (json "mint" "test" "amt" "150").

(** Scenario 3: 30 tokens remain and a mint asks for 100. *)
Definition deploy30lim100 : OrdTransfer :=
  record "i0" "" "aa" "walletA" false
    (json_fields [("p", "brc-20"); ("op", "deploy"); ("tick", "test");
                  ("max", "30"); ("lim", "100")]%string).
Definition mint100 : OrdTransfer :=
  record "i3" "" "aa" "walletA" false (json "mint" "test" "amt" "100").

(** The wallet key of holder A, B, C: the decoded address as a string. *)
Definition walletA : string := string_of_bytes (decode_address "walletA").
Definition walletB : string := string_of_bytes (decode_address "walletB").
Definition walletC : string := string_of_bytes (decode_address "walletC").

(** Holder A inscribes two transfers of 300, X and Y; X is sent to B, Y
    to C.  [spendX_C] moves X a second time, to C. *)
Definition insX300 : OrdTransfer :=
  record "iX" "" "aa" "walletA" false (json "transfer" "test" "amt" "300").
Definition spendX_B : OrdTransfer :=
  record "iX" "satX" "bb" "walletB" false (json "transfer" "test" "amt" "300").
Definition spendX_C : OrdTransfer :=
  record "iX" "satX2" "cc" "walletC" false (json "transfer" "test" "amt" "300").

(** An inscription Z of 100 whose movement is handed over with the
    amount 600. *)
Definition insZ100 : OrdTransfer :=
  record "iZ" "" "aa" "walletA" false (json "transfer" "test" "amt" "100").
Definition spendZ600 : OrdTransfer :=
  record "iZ" "satZ" "bb" "walletB" false (json "transfer" "test" "amt" "600").

(** Two outputs without an address (empty wallet), pkscripts "51" and
    "52". *)
Definition deployN : OrdTransfer :=
  record "n0" "" "51" "" false (json "deploy" "test" "max" "1000").
Definition mintN1 : OrdTransfer :=
  record "n1" "" "51" "" false (json "mint" "test" "amt" "500").
Definition mintN2 : OrdTransfer :=
  record "n2" "" "52" "" false (json "mint" "test" "amt" "100").

(** The statement of the specification on balance consistency, for a run
    of blocks from the empty store: every holder named by a record has
    equal wallet-keyed and pkscript-keyed balances. *)
Definition holders_consistent_after (batches : list (list OrdTransfer)) : Prop :=
  forall h, blocks h0 batches = Ok h ->
    forall t, t ∈ concat batches ->
      holder_consistent (env := environment) h (NewWallet t) (NewPkscript t) "test".

(** After A's inscription X has been paged; then with the movement of X
    to B staged, and with it paged. *)
Definition inscribedX : Header :=
  header_of (blocks h0 [[deploy1000]; [mint500]; [insX300]]).
Definition spentX_pending : Header :=
  header_of (Exec (env := environment) inscribedX [spendX_B]).
Definition spentX : Header :=
  header_of (blocks h0 [[deploy1000]; [mint500]; [insX300]; [spendX_B]]).



(** A blob of two slots whose first slot reads as the number 1. *)
Definition blob64 : list Z := replicate 31 0 ++ [1] ++ replicate 32 170.


(** The header after [InsertBytes] of the blob at [key0], before and
    after [Paging]. *)
Definition stored : Header := header_of (InsertBytes h0 key0 blob64 []).
Definition stored_paged : Header := fst (Paging stored getter_ok false).

End Scenario.

(** The bytes [saveSourceWalletAndPkscript] stores for a pkscript: the
    length byte, then the script decoded from hex (with a final 0 digit
    added to an odd-length script). *)
Definition encodedPkscript (pkScript : string) : list Z :=
  [byte_wrap (Z.of_nat (String.length pkScript))]
  ++ fst (hex_DecodeString
            (if (String.length pkScript mod 2 =? 1)%nat
             then (pkScript +:+ "0")%string else pkScript)).

(** The writes of [saveSourceWalletAndPkscript]. *)
Definition source_writes {env : Environment} (inscrID sourceAddr pkScript : string)
    : list (list Z * list Z) :=
  [ (GetEventHash TransferInscribeSourceWallet inscrID, bytes_of_string sourceAddr);
    (GetEventHash TransferInscribeSourcePkscript1 inscrID,
     padTo32Bytes (take (Nat.min (length (encodedPkscript pkScript)) 32)
                        (encodedPkscript pkScript))) ]
  ++ (if (32 <? length (encodedPkscript pkScript))%nat
      then [ (GetEventHash TransferInscribeSourcePkscript2 inscrID,
              padTo32Bytes (drop 32 (encodedPkscript pkScript))) ]
      else []).

(** The state one iteration hands to the next. *)
Definition flow_result {S : Type} (m : flow S) : result S :=
  match m with
  | Next s | Continue s => Ok s
  | Abort p => Panic p
  end.

(** What one iteration of the loop of [Exec] can have done to the header:
    nothing, or exactly one call of one of the five mutators, made after
    the checks of its block have passed on the values read from [h]. *)
Inductive applied {env : Environment} (upperLimit : Z) (h : Header) (t : OrdTransfer)
    : Header -> Prop :=
  | applied_skip : applied upperLimit h t h
  | applied_deploy raw tick maxSupply decimals limitPerMint kex h' :
      Unmarshal (Content t) !! "tick"%string = Some raw -> tick = ToLower raw ->
      String.length tick = 4%nat ->
      js_get (Unmarshal (Content t)) "op" = "deploy"%string -> OldSatpoint t = ""%string ->
      GetHash Exists "" tick = Ok kex ->
      length (default [] (Root h !! kex)) = 0%nat ->
      decimals <= 18 ->
      maxSupply <= upperLimit -> maxSupply <> 0 ->
      limitPerMint <= upperLimit -> limitPerMint <> 0 ->
      deployInscribe h (InscriptionID t) (NewPkscript t) (NewWallet t) tick
        maxSupply decimals limitPerMint = Ok h' ->
      applied upperLimit h t h'
  | applied_mint raw tick amountString amount kex krs klim kdec h' :
      Unmarshal (Content t) !! "tick"%string = Some raw -> tick = ToLower raw ->
      String.length tick = 4%nat ->
      js_get (Unmarshal (Content t)) "op" = "mint"%string -> OldSatpoint t = ""%string ->
      Unmarshal (Content t) !! "amt"%string = Some amountString ->
      GetHash Exists "" tick = Ok kex -> GetHash RemainingSupply "" tick = Ok krs ->
      GetHash LimitPerMint "" tick = Ok klim -> GetHash Decimals "" tick = Ok kdec ->
      length (default [] (Root h !! kex)) <> 0%nat ->
      getNumberExtendedTo18Decimals amountString (convertByteToInt (Root h !! kdec)) false
        = Some amount ->
      amount <= upperLimit -> amount <> 0 ->
      convertByteToInt (Root h !! krs) <> 0 ->
      amount <= convertByteToInt (Root h !! klim) ->
      mintInscribe h (InscriptionID t) (NewPkscript t) (NewWallet t) tick
        (if convertByteToInt (Root h !! krs) <? amount
         then convertByteToInt (Root h !! krs) else amount) = Ok h' ->
      applied upperLimit h t h'
  | applied_inscribe raw tick amountString amount kex kdec kap availableBalance h' :
      Unmarshal (Content t) !! "tick"%string = Some raw -> tick = ToLower raw ->
      String.length tick = 4%nat ->
      js_get (Unmarshal (Content t)) "op" = "transfer"%string -> OldSatpoint t = ""%string ->
      Unmarshal (Content t) !! "amt"%string = Some amountString ->
      GetHash Exists "" tick = Ok kex -> GetHash Decimals "" tick = Ok kdec ->
      length (default [] (Root h !! kex)) <> 0%nat ->
      getNumberExtendedTo18Decimals amountString (convertByteToInt (Root h !! kdec)) false
        = Some amount ->
      amount <= upperLimit -> amount <> 0 ->
      GetHash AvailableBalancePkscript (NewPkscript t) tick = Ok kap ->
      GetUInt256 h kap = Ok availableBalance ->
      amount <= availableBalance ->
      transferInscribe h (InscriptionID t) (NewPkscript t) (NewWallet t) tick
        amount availableBalance = Ok h' ->
      applied upperLimit h t h'
  | applied_spend raw tick amountString amount kex kdec h' :
      Unmarshal (Content t) !! "tick"%string = Some raw -> tick = ToLower raw ->
      String.length tick = 4%nat ->
      js_get (Unmarshal (Content t)) "op" = "transfer"%string -> OldSatpoint t <> ""%string ->
      Unmarshal (Content t) !! "amt"%string = Some amountString ->
      GetHash Exists "" tick = Ok kex -> GetHash Decimals "" tick = Ok kdec ->
      length (default [] (Root h !! kex)) <> 0%nat ->
      getNumberExtendedTo18Decimals amountString (convertByteToInt (Root h !! kdec)) false
        = Some amount ->
      amount <= upperLimit -> amount <> 0 ->
      isUsedOrInvalid h (InscriptionID t) = Ok false ->
      (if SentAsFee t
       then transferTransferSpendToFee h (InscriptionID t) tick amount (ID t)
       else transferTransferNormal h (InscriptionID t) (NewPkscript t) (NewWallet t)
              tick amount (ID t)) = Ok h' ->
      applied upperLimit h t h'.

(** * Properties *)

(** ** Lists of bytes *)

Lemma copy_into_exact (n : nat) (l : list Z) : length l = n -> copy_into n l = l.
Proof.
  intros <-. unfold copy_into. by rewrite take_app_length.
Qed.

Lemma copy_into_length (n : nat) (l : list Z) : length (copy_into n l) = n.
Proof.
  unfold copy_into. rewrite length_take, length_app, length_replicate. lia.
Qed.

Lemma be_bytes_length (n : nat) (v : Z) : length (be_bytes n v) = n.
Proof.
  revert v. induction n as [|n IH]; intros v; simpl; [done|].
  rewrite length_app, IH. simpl. lia.
Qed.

Lemma convertIntToByte_length (v : Z) : length (convertIntToByte v) = 32%nat.
Proof. apply be_bytes_length. Qed.

(** ** The store: [insert], [get], [Paging] *)

Lemma get_ok (h : Header) (key : list Z) :
  length key = 32%nat -> get h key = Ok (Root h !! key).
Proof. intros Hk. unfold get, KeySize. by rewrite Hk. Qed.

Lemma insert_ok (h : Header) (key value : list Z) :
  length key = 32%nat -> length value = 32%nat ->
  insert h key value = Ok (push h key value).
Proof.
  intros Hk Hv. unfold insert, get, KeySize, ValueSize. rewrite Hk, Hv. simpl.
  unfold push, committed_array, committed_exists, ValueSize.
  rewrite !copy_into_exact by done.
  by destruct (Root h !! key).
Qed.

Lemma insert_inv (h h' : Header) (key value : list Z) :
  insert h key value = Ok h' ->
  length key = 32%nat /\ length value = 32%nat /\ h' = push h key value.
Proof.
  intros H. unfold insert, get, KeySize, ValueSize in H.
  destruct (length key =? 32)%nat eqn:Hk; simpl in H; [|done].
  destruct (length value =? 32)%nat eqn:Hv; simpl in H; [|done].
  apply Nat.eqb_eq in Hk, Hv.
  split; [done|]. split; [done|].
  inversion H as [Heq]. unfold push, committed_array, committed_exists, ValueSize.
  rewrite !copy_into_exact by done. by destruct (Root h !! key).
Qed.

Lemma page_elements_cons kv root e es :
  page_elements kv root (e :: es)
  = page_elements (<[Key e := NewValue e]> kv) (<[Key e := NewValue e]> root) es.
Proof. reflexivity. Qed.

Lemma page_elements_lookup kv root es key :
  fst (page_elements kv root es) !! key = paged_lookup kv es key /\
  snd (page_elements kv root es) !! key = paged_lookup root es key.
Proof.
  revert kv root. induction es as [|e es IH]; intros kv root.
  - done.
  - rewrite page_elements_cons. destruct (IH (<[Key e := NewValue e]> kv)
      (<[Key e := NewValue e]> root)) as [-> ->].
    unfold paged_lookup. simpl.
    destruct (staged_value es key); [done|].
    rewrite !lookup_insert. by destruct (decide (Key e = key)).
Qed.

Lemma Paging_fields {E} (h : Header) (g : Z -> string + E) (q : bool) :
  let h' := fst (Paging h g q) in
  KV h' = fst (page_elements (KV h) (Root h) (Temp h)) /\
  Root h' = snd (page_elements (KV h) (Root h) (Temp h)) /\
  Temp h' = [] /\ Height h' = u64_wrap (Height h + 1).
Proof.
  unfold Paging. destruct (page_elements (KV h) (Root h) (Temp h)) as [kv root].
  destruct q; [destruct (g _)|]; done.
Qed.

(** C5. For a 32-byte key and a 32-byte value, [insert] succeeds, appends
    to [Temp] the one element made of the key, the committed value as an
    array, the new value and the flag telling whether a committed value
    existed, and leaves [Root] and [KV] as they are; a [get] of the same
    key on the resulting header returns the committed value of before,
    not the staged one. *)
Theorem insert_stages_and_get_reads_committed (h : Header) (key value : list Z)
    (Hkey : length key = 32%nat) (Hvalue : length value = 32%nat) :
  exists h',
    insert h key value = Ok h' /\
    Temp h' = Temp h ++ [ {| Key := key; OldValue := committed_array h key;
                             NewValue := value;
                             OldValueExists := committed_exists h key |} ] /\
    Root h' = Root h /\ KV h' = KV h /\
    get h' key = get h key /\ get h' key = Ok (Root h !! key).
Proof.
  exists (push h key value). rewrite insert_ok by done.
  repeat split; try reflexivity. by rewrite get_ok.
Qed.

Lemma insert_stages_witness :
  exists h',
    insert Scenario.h0 Scenario.key0 (replicate 32 9) = Ok h' /\
    Temp h' = Temp Scenario.h0
              ++ [ {| Key := Scenario.key0;
                      OldValue := committed_array Scenario.h0 Scenario.key0;
                      NewValue := replicate 32 9;
                      OldValueExists := committed_exists Scenario.h0 Scenario.key0 |} ] /\
    Root h' = Root Scenario.h0 /\ KV h' = KV Scenario.h0 /\
    get h' Scenario.key0 = get Scenario.h0 Scenario.key0 /\
    get h' Scenario.key0 = Ok (Root Scenario.h0 !! Scenario.key0).
Proof.
  apply (insert_stages_and_get_reads_committed Scenario.h0 Scenario.key0 (replicate 32 9));
    reflexivity.
Defined.

(** C3, as the specification states it, fails: with one write pending and
    a getter that cannot give the block hash, [Paging] returns the error
    after it has written the pending value, emptied [Temp] and advanced
    [Height]. *)
Lemma paging_error_counterexample :
  ~ paging_error_leaves_store Scenario.pending Standin.getter_down.
Proof.
  intros H.
  destruct (H (fst (Paging Scenario.pending Standin.getter_down true)) "unreachable"%string
              eq_refl) as (_ & _ & HT & _).
  discriminate HT.
Qed.

(** C3, amended. When [Paging] returns an error, the hash query was on and
    the getter failed at the new height; every staged write has been
    applied to [KV] and to [Root] (a key holds the last value staged for
    it, any other key what it held), [Temp] is empty, [Height] is one more
    (modulo 2^64), and only [Hash] is as before. *)
Theorem paging_error_applies_batch {E} (h h' : Header) (g : Z -> string + E)
    (q : bool) (err : E) (Herr : Paging h g q = (h', Some err)) :
  q = true /\ g (Height h') = inr err /\
  (forall key, KV h' !! key = paged_lookup (KV h) (Temp h) key) /\
  (forall key, Root h' !! key = paged_lookup (Root h) (Temp h) key) /\
  Temp h' = [] /\ Height h' = u64_wrap (Height h + 1) /\ Hash h' = Hash h.
Proof.
  pose proof (Paging_fields h g q) as HF. rewrite Herr in HF. simpl in HF.
  destruct HF as (HKV & HRoot & HT & HH).
  unfold Paging in Herr.
  destruct (page_elements (KV h) (Root h) (Temp h)) as [kv root] eqn:Hp.
  destruct q.
  - destruct (g (u64_wrap (Height h + 1))) as [hash|e] eqn:Hg; [done|].
    inversion Herr; subst. simpl in *.
    repeat split; try done.
    + intros key. pose proof (page_elements_lookup (KV h) (Root h) (Temp h) key) as [H1 _].
      by rewrite Hp in H1.
    + intros key. pose proof (page_elements_lookup (KV h) (Root h) (Temp h) key) as [_ H2].
      by rewrite Hp in H2.
  - done.
Qed.

Lemma paging_error_witness :
  let h' := fst (Paging Scenario.pending Standin.getter_down true) in
  true = true /\ Standin.getter_down (Height h') = inr "unreachable"%string /\
  (forall key, KV h' !! key = paged_lookup (KV Scenario.pending) (Temp Scenario.pending) key) /\
  (forall key, Root h' !! key = paged_lookup (Root Scenario.pending) (Temp Scenario.pending) key) /\
  Temp h' = [] /\ Height h' = u64_wrap (Height Scenario.pending + 1) /\
  Hash h' = Hash Scenario.pending.
Proof.
  apply (paging_error_applies_batch Scenario.pending _ Standin.getter_down true).
  reflexivity.
Defined.

(** C9, on the code: after [InsertBytes] of a two-slot blob and [Paging],
    the slot at the stem key holds the first 32 bytes of the blob and not
    the slot count, because the loop stores slot [i] at offset [i] and so
    slot 0 over the count; [GetBytes] then reads that slot as the count
    (here 1) and returns one slot instead of the blob.  Before [Paging],
    [GetBytes] reads the committed tree and returns nothing. *)
Theorem InsertBytes_overwrites_count :
  InsertBytes Scenario.h0 Scenario.key0 Scenario.blob64 [] = Ok Scenario.stored /\
  writes_of (Temp Scenario.stored)
    = [ (Scenario.key0, WriteToArray32 2);
        (Scenario.key0, take 32 Scenario.blob64);
        (set_suffix Scenario.key0 1, drop 32 Scenario.blob64) ] /\
  GetBytes Scenario.stored Scenario.key0 = Ok [] /\
  get Scenario.stored_paged Scenario.key0 = Ok (Some (take 32 Scenario.blob64)) /\
  GetBytes Scenario.stored_paged Scenario.key0 = Ok (take 32 Scenario.blob64) /\
  GetBytes Scenario.stored_paged Scenario.key0 <> Ok Scenario.blob64.
Proof.
  split; [vm_compute; reflexivity|].
  split; [vm_compute; reflexivity|].
  split; [vm_compute; reflexivity|].
  split; [vm_compute; reflexivity|].
  split; [vm_compute; reflexivity|].
  vm_compute. discriminate.
Qed.

(** [InsertBytes] does not pad: a blob whose length is not a multiple of 32
    and whose slice has no spare capacity makes it panic on the slice
    expression of its last slot. *)
Lemma InsertBytes_unpadded_blob_panics :
  InsertBytes Scenario.h0 Scenario.key0 [1; 2; 3] [] = Panic SliceBounds.
Proof. vm_compute. reflexivity. Qed.

(** ** Staged writes *)

Lemma staged_refl (h : Header) : staged h h [].
Proof. repeat split; [|constructor]. exists []. by rewrite app_nil_r. Qed.

Lemma staged_cons (h h' : Header) key value ws :
  length key = 32%nat -> length value = 32%nat ->
  staged (push h key value) h' ws -> staged h h' ((key, value) :: ws).
Proof.
  intros Hk Hv (HR & HK & HH & HS & (es & HT & Hw) & HF). simpl in *.
  repeat split; try done; [|by constructor].
  eexists (_ :: es). split; [by rewrite HT, <- app_assoc|]. simpl. by rewrite Hw.
Qed.

Lemma staged_trans (h1 h2 h3 : Header) ws1 ws2 :
  staged h1 h2 ws1 -> staged h2 h3 ws2 -> staged h1 h3 (ws1 ++ ws2).
Proof.
  intros (HR & HK & HH & HS & (es & HT & Hw) & HF)
         (HR' & HK' & HH' & HS' & (es' & HT' & Hw') & HF').
  repeat split; try congruence; [|by apply Forall_app].
  exists (es ++ es'). split; [by rewrite HT', HT, app_assoc|].
  unfold writes_of in *. by rewrite map_app, Hw, Hw'.
Qed.

Lemma staged_nil_eq (h h' : Header) : staged h h' [] -> h' = h.
Proof.
  intros (HR & HK & HH & HS & (es & HT & Hw) & _).
  destruct es; [|done]. rewrite app_nil_r in HT.
  destruct h, h'; simpl in *; congruence.
Qed.

Lemma get_push h key value k : get (push h key value) k = get h k.
Proof. reflexivity. Qed.

Lemma GetUInt256_push h key value k :
  GetUInt256 (push h key value) k = GetUInt256 h k.
Proof. reflexivity. Qed.

Lemma get_staged h h' ws k : staged h h' ws -> get h' k = get h k.
Proof. intros (HR & _). unfold get. by rewrite HR. Qed.

Lemma GetUInt256_staged h h' ws k : staged h h' ws -> GetUInt256 h' k = GetUInt256 h k.
Proof. intros H. unfold GetUInt256. by rewrite (get_staged _ _ _ _ H). Qed.

Lemma rbind_ok {A B} (m : result A) (f : A -> result B) (b : B) :
  rbind m f = Ok b -> exists a, m = Ok a /\ f a = Ok b.
Proof. destruct m; simpl; [eauto|done]. Qed.

(** Inversion of one step of a computation that ended in [Ok]. *)
Ltac ok_step H :=
  lazymatch type of H with
  | rbind (insert ?h ?k ?v) _ = Ok _ =>
      let h1 := fresh "h" in let E := fresh "E" in
      let Hk := fresh "Hk" in let Hv := fresh "Hv" in
      apply rbind_ok in H as (h1 & E & H);
      apply insert_inv in E as (Hk & Hv & ->)
  | insert ?h ?k ?v = Ok _ =>
      let Hk := fresh "Hk" in let Hv := fresh "Hv" in
      apply insert_inv in H as (Hk & Hv & ->)
  | rbind ?m _ = Ok _ =>
      let a := fresh "a" in let E := fresh "E" in
      apply rbind_ok in H as (a & E & H)
  | (let '(_, _) := ?p in _) = Ok _ => destruct p
  | (if ?c then _ else _) = Ok _ =>
      let E := fresh "E" in destruct c eqn:E; try discriminate H
  end.

(** Reduce the methods of [KVStorage] on [Header] to the functions of
    header.go. *)
Ltac on_header H := cbn [Insert Get GetValueOrZero Header_KVStorage] in H.

Ltac solve_staged :=
  repeat first [ apply staged_refl | apply staged_cons; [assumption|assumption|] ].

Ltac simplify_flow H :=
  cbn [flow_result] in H; inversion H; subst; clear H.

(** Inversion of one test of a block of the loop body that did not panic. *)
Ltac flow_step H :=
  lazymatch type of H with
  | flow_result (run ?m _) = Ok _ =>
      let E := fresh "E" in destruct m eqn:E; cbn [run] in H; [|discriminate H]
  | flow_result (match ?x with _ => _ end) = Ok _ =>
      let E := fresh "E" in destruct x eqn:E
  end.

(** Boolean tests of the source, as propositions. *)
Ltac tests :=
  repeat match goal with
  | H : _ && _ = true |- _ => apply andb_true_iff in H as [? ?]
  | H : _ || _ = false |- _ => apply orb_false_iff in H as [? ?]
  | H : negb _ = false |- _ => apply negb_false_iff in H
  | H : negb _ = true |- _ => apply negb_true_iff in H
  | H : String.eqb _ _ = true |- _ => apply String.eqb_eq in H
  | H : String.eqb _ _ = false |- _ => apply String.eqb_neq in H
  | H : (_ <? _) = false |- _ => apply Z.ltb_ge in H
  | H : (_ <? _) = true |- _ => apply Z.ltb_lt in H
  | H : (_ =? _) = false |- _ => apply Z.eqb_neq in H
  | H : (_ =? _) = true |- _ => apply Z.eqb_eq in H
  | H : (_ =? _)%nat = false |- _ => apply Nat.eqb_neq in H
  | H : (_ =? _)%nat = true |- _ => apply Nat.eqb_eq in H
  end.

Section OnHeader.
Context {env : Environment}.

(** The digest has the 28 bytes of SHA3-224. *)
Hypothesis digest_length : forall s, length (keccak224 s) = 28%nat.

(** No state key is an event key: the two key spaces do not meet
    (section 4.B). *)
Hypothesis state_keys_apart : forall stateID uniqueID tick key eventID id,
  GetHash stateID uniqueID tick = Ok key -> eventID ∈ event_ids ->
  key <> GetEventHash eventID id.


Lemma bytes_of_string_length (s : string) :
  length (bytes_of_string s) = String.length s.
Proof.
  unfold bytes_of_string. rewrite length_map.
  induction s as [|c s IH]; simpl; [done|]. by rewrite IH.
Qed.

Lemma GetHash_ok (stateID : Z) (uniqueID tick : string) :
  String.length tick = 4%nat ->
  GetHash stateID uniqueID tick
  = Ok (take 27 (keccak224 uniqueID) ++ [stateID] ++ bytes_of_string tick).
Proof.
  intros Ht. unfold GetHash, digest_prefix. rewrite Ht, digest_length. simpl.
  rewrite length_app, length_take, digest_length. simpl.
  by rewrite bytes_of_string_length, Ht.
Qed.

Lemma GetHash_length (stateID : Z) (uniqueID tick : string) (k : list Z) :
  GetHash stateID uniqueID tick = Ok k -> length k = 32%nat.
Proof.
  unfold GetHash. intros H.
  destruct (negb _); [done|].
  apply rbind_ok in H as (res & _ & H).
  destruct (length res =? 32)%nat eqn:E; simpl in H; [|done].
  apply Nat.eqb_eq in E. congruence.
Qed.


Lemma deployInscribe_staged (h h' : Header) (id pk addr tick : string)
    (maxSupply decimals limitPerMint : Z) :
  deployInscribe h id pk addr tick maxSupply decimals limitPerMint = Ok h' ->
  exists k1 k2 k3 k4 k5,
    GetTickStatus tick = Ok (k1, k2, k3, k4, k5) /\
    staged h h' [ (k1, convertIntToByte 0); (k2, convertIntToByte maxSupply);
                  (k3, convertIntToByte maxSupply);
                  (k4, convertIntToByte limitPerMint);
                  (k5, convertIntToByte decimals) ].
Proof.
  unfold deployInscribe. intros H. on_header H.
  ok_step H. destruct a as [[[[k1 k2] k3] k4] k5].
  repeat ok_step H.
  exists k1, k2, k3, k4, k5. split; [done|]. solve_staged.
Qed.

Lemma GetTickStatus_inv (tick : string) k1 k2 k3 k4 k5 :
  GetTickStatus tick = Ok (k1, k2, k3, k4, k5) ->
  GetHash Exists "" tick = Ok k1 /\ GetHash RemainingSupply "" tick = Ok k2 /\
  GetHash MaxSupply "" tick = Ok k3 /\ GetHash LimitPerMint "" tick = Ok k4 /\
  GetHash Decimals "" tick = Ok k5.
Proof.
  unfold GetTickStatus. intros H. repeat ok_step H. by inversion H; subst.
Qed.

Lemma mintInscribe_staged (h h' : Header) (id pk addr tick : string) (amount : Z) :
  mintInscribe h id pk addr tick amount = Ok h' ->
  exists kap kop kaw kow krs a o r,
    GetHash AvailableBalancePkscript pk tick = Ok kap /\
    GetHash OverallBalancePkscript pk tick = Ok kop /\
    GetHash AvailableBalance (string_of_bytes (decodeBitcoinAddress addr)) tick = Ok kaw /\
    GetHash OverallBalance (string_of_bytes (decodeBitcoinAddress addr)) tick = Ok kow /\
    GetHash RemainingSupply "" tick = Ok krs /\
    GetUInt256 h kap = Ok a /\ GetUInt256 h kop = Ok o /\ get h krs = Ok r /\
    staged h h' [ (kap, convertIntToByte (u256_add a amount));
                  (kop, convertIntToByte (u256_add o amount));
                  (kaw, convertIntToByte (u256_add a amount));
                  (kow, convertIntToByte (u256_add o amount));
                  (krs, convertIntToByte (u256_sub (convertByteToInt r) amount)) ].
Proof.
  unfold mintInscribe. intros H. on_header H.
  repeat ok_step H.
  match goal with
  | E : GetTickStatus tick = Ok _ |- _ => apply GetTickStatus_inv in E as (_ & Hrs & _)
  end.
  rewrite !get_push in *.
  do 8 eexists. repeat (split; [eassumption|]). solve_staged.
Qed.

Lemma saveSourceWalletAndPkscript_staged (h h' : Header) (id sourceAddr pkScript : string) :
  saveSourceWalletAndPkscript h id sourceAddr pkScript = Ok h' ->
  staged h h' (source_writes id sourceAddr pkScript).
Proof.
  unfold saveSourceWalletAndPkscript, source_writes. intros H. on_header H.
  fold (encodedPkscript pkScript) in H.
  do 2 ok_step H.
  destruct (32 <? length (encodedPkscript pkScript))%nat.
  - ok_step H. solve_staged.
  - inversion H; subst. solve_staged.
Qed.

Lemma transferInscribe_staged (h h' : Header) (id pk addr tick : string)
    (amount availableBalance : Z) :
  transferInscribe h id pk addr tick amount availableBalance = Ok h' ->
  let sourceAddr := string_of_bytes (decodeBitcoinAddress addr) in
  exists kaw kap cnt,
    GetHash AvailableBalance sourceAddr tick = Ok kaw /\
    GetHash AvailableBalancePkscript pk tick = Ok kap /\
    GetUInt256 h (GetEventHash TransferInscribeCount id) = Ok cnt /\
    staged h h'
      ([ (kaw, convertIntToByte (u256_sub availableBalance amount));
         (kap, convertIntToByte (u256_sub availableBalance amount)) ]
       ++ source_writes id sourceAddr pk
       ++ [ (GetEventHash TransferInscribeCount id, convertIntToByte (u256_add cnt 1)) ]).
Proof.
  unfold transferInscribe. intros H. on_header H.
  do 4 ok_step H.
  ok_step H. apply saveSourceWalletAndPkscript_staged in E1.
  ok_step H. rewrite (GetUInt256_staged _ _ _ _ E1) in E2.
  rewrite !GetUInt256_push in E2.
  ok_step H.
  do 3 eexists. repeat (split; [eassumption|]).
  do 2 (apply staged_cons; [assumption|assumption|]).
  eapply staged_trans; [exact E1|]. solve_staged.
Qed.

Lemma transferTransferSpendToFee_staged (h h' : Header) (id tick : string)
    (amount txId : Z) :
  transferTransferSpendToFee h id tick amount txId = Ok h' ->
  exists sourceAddr sourcePkScript kaw kap last cnt,
    getSourceWalletAndPkscript h id = Ok (sourceAddr, sourcePkScript) /\
    GetHash AvailableBalance sourceAddr tick = Ok kaw /\
    GetHash AvailableBalancePkscript sourcePkScript tick = Ok kap /\
    GetUInt256 h kaw = Ok last /\
    GetUInt256 h (GetEventHash TransferTransferCount id) = Ok cnt /\
    staged h h' [ (kaw, convertIntToByte (u256_add last amount));
                  (kap, convertIntToByte (u256_add last amount));
                  (GetEventHash TransferTransferCount id,
                   convertIntToByte (u256_add cnt 1)) ].
Proof.
  unfold transferTransferSpendToFee. intros H. on_header H.
  ok_step H. destruct a as [sourceAddr sourcePkScript].
  repeat ok_step H.
  rewrite !GetUInt256_push in *.
  do 6 eexists. repeat (split; [eassumption|]). solve_staged.
Qed.

Lemma transferTransferNormal_staged (h h' : Header) (id pk addr tick : string)
    (amount txId : Z) :
  transferTransferNormal h id pk addr tick amount txId = Ok h' ->
  let spentAddr := string_of_bytes (decodeBitcoinAddress addr) in
  exists sourceAddr sourcePkScript kow kop saw sow sap sop ov av sov cnt,
    getSourceWalletAndPkscript h id = Ok (sourceAddr, sourcePkScript) /\
    GetHash OverallBalance sourceAddr tick = Ok kow /\
    GetHash OverallBalancePkscript sourcePkScript tick = Ok kop /\
    GetHash AvailableBalance spentAddr tick = Ok saw /\
    GetHash OverallBalance spentAddr tick = Ok sow /\
    GetHash AvailableBalancePkscript pk tick = Ok sap /\
    GetHash OverallBalancePkscript pk tick = Ok sop /\
    GetUInt256 h kow = Ok ov /\ GetUInt256 h saw = Ok av /\
    GetUInt256 h sow = Ok sov /\
    GetUInt256 h (GetEventHash TransferTransferCount id) = Ok cnt /\
    staged h h' [ (kow, convertIntToByte (u256_sub ov amount));
                  (kop, convertIntToByte (u256_sub ov amount));
                  (saw, convertIntToByte (u256_add av amount));
                  (sow, convertIntToByte (u256_add sov amount));
                  (sap, convertIntToByte (u256_add av amount));
                  (sop, convertIntToByte (u256_add sov amount));
                  (GetEventHash TransferTransferCount id,
                   convertIntToByte (u256_add cnt 1)) ].
Proof.
  unfold transferTransferNormal. intros H. on_header H.
  ok_step H. destruct a as [sourceAddr sourcePkScript].
  repeat ok_step H.
  rewrite !GetUInt256_push in *.
  do 12 eexists. repeat (split; [eassumption|]). solve_staged.
Qed.

Lemma get_inv (h : Header) (k : list Z) (v : option (list Z)) :
  get h k = Ok v -> v = Root h !! k.
Proof. unfold get. destruct (negb _); [done|]. by inversion 1. Qed.

Lemma handle_deploy_applied u (h h' : Header) (t : OrdTransfer) raw tick :
  Unmarshal (Content t) !! "tick"%string = Some raw -> tick = ToLower raw ->
  String.length tick = 4%nat ->
  flow_result (handle_deploy u h t (Unmarshal (Content t)) tick) = Ok h' ->
  applied u h t h'.
Proof.
  intros Hraw Htick Hlen H. unfold handle_deploy in H. on_header H.
  repeat flow_step H.
  all: try (simplify_flow H; apply applied_skip).
  simplify_flow H. subst. tests.
  match goal with E : GetTickStatus _ = Ok _ |- _ =>
    apply GetTickStatus_inv in E as (Hex & _) end.
  match goal with E : get h _ = Ok _ |- _ => apply get_inv in E; subst end.
  match goal with
  | E : deployInscribe _ _ _ _ _ ?mx ?dc ?lm = Ok _ |- _ =>
      assert (lm <= u /\ lm <> 0) as [? ?];
      [| eapply (applied_deploy u h t raw _ mx dc lm); try eassumption;
         try reflexivity; lia ]
  end.
  match goal with E : match _ !! "lim"%string with _ => _ end = Some _ |- _ =>
    destruct (Unmarshal (Content t) !! "lim"%string); [|by inversion E; subst];
    repeat (match type of E with
            | (if ?c then _ else _) = Some _ => destruct c eqn:?; try discriminate E
            | match ?x with _ => _ end = Some _ => destruct x eqn:?; try discriminate E
            end);
    inversion E; subst; tests; lia
  end.
Qed.

Lemma handle_mint_applied u (h h' : Header) (t : OrdTransfer) raw tick :
  Unmarshal (Content t) !! "tick"%string = Some raw -> tick = ToLower raw ->
  String.length tick = 4%nat ->
  flow_result (handle_mint u h t (Unmarshal (Content t)) tick) = Ok h' ->
  applied u h t h'.
Proof.
  intros Hraw Htick Hlen H. unfold handle_mint in H. on_header H.
  repeat flow_step H.
  all: try (simplify_flow H; apply applied_skip).
  simplify_flow H. subst. tests.
  match goal with E : GetTickStatus _ = Ok _ |- _ =>
    apply GetTickStatus_inv in E as (Hex & Hrs & _ & Hlim & Hdec) end.
  repeat match goal with E : get h _ = Ok _ |- _ => apply get_inv in E; subst end.
  eapply applied_mint; try eassumption; try reflexivity; lia.
Qed.

Lemma handle_transfer_applied u (h h' : Header) (t : OrdTransfer) raw tick :
  Unmarshal (Content t) !! "tick"%string = Some raw -> tick = ToLower raw ->
  String.length tick = 4%nat ->
  flow_result (handle_transfer u h t (Unmarshal (Content t)) tick) = Ok h' ->
  applied u h t h'.
Proof.
  intros Hraw Htick Hlen H. unfold handle_transfer in H. on_header H.
  repeat flow_step H.
  all: try (simplify_flow H; apply applied_skip).
  all: simplify_flow H; subst; tests.
  all: match goal with E : GetTickStatus _ = Ok _ |- _ =>
    apply GetTickStatus_inv in E as (Hex & _ & _ & _ & Hdec) end.
  all: repeat match goal with E : get _ _ = Ok _ |- _ => apply get_inv in E; subst end.
  - eapply applied_inscribe; try eassumption; try reflexivity; lia.
  - eapply applied_spend; try eassumption; try reflexivity; try lia.
    by match goal with E : SentAsFee _ = true |- _ => rewrite E end.
  - eapply applied_spend; try eassumption; try reflexivity; try lia.
    by match goal with E : SentAsFee _ = false |- _ => rewrite E end.
Qed.

Lemma handle_deploy_other u (h : Header) (t : OrdTransfer) js tick :
  js_get js "op" <> "deploy"%string -> handle_deploy u h t js tick = Next h.
Proof.
  intros H. unfold handle_deploy. apply String.eqb_neq in H. by rewrite H.
Qed.

Lemma handle_mint_other u (h : Header) (t : OrdTransfer) js tick :
  js_get js "op" <> "mint"%string -> handle_mint u h t js tick = Next h.
Proof.
  intros H. unfold handle_mint. apply String.eqb_neq in H. by rewrite H.
Qed.

Lemma handle_transfer_other u (h : Header) (t : OrdTransfer) js tick :
  js_get js "op" <> "transfer"%string -> handle_transfer u h t js tick = Next h.
Proof.
  intros H. unfold handle_transfer. apply String.eqb_neq in H. by rewrite H.
Qed.

(** The three blocks are mutually exclusive, and a block that is
    entered is the only one to run. *)
Lemma blocks_cases u (h : Header) (t : OrdTransfer) js tick :
  let chain :=
    then_ (handle_deploy u h t js tick) (fun state =>
    then_ (handle_mint u state t js tick) (fun state =>
    handle_transfer u state t js tick)) in
  flow_result chain = flow_result (handle_deploy u h t js tick) \/
  flow_result chain = flow_result (handle_mint u h t js tick) \/
  flow_result chain = flow_result (handle_transfer u h t js tick).
Proof.
  intros chain. subst chain.
  destruct (decide (js_get js "op" = "deploy"%string)) as [Hd|Hd].
  - left. destruct (handle_deploy u h t js tick) as [s| |]; try done.
    cbn [then_]. rewrite handle_mint_other by (rewrite Hd; done).
    cbn [then_]. by rewrite handle_transfer_other by (rewrite Hd; done).
  - rewrite (handle_deploy_other u h t js tick Hd). cbn [then_].
    destruct (decide (js_get js "op" = "mint"%string)) as [Hm|Hm].
    + right; left. destruct (handle_mint u h t js tick) as [s| |]; try done.
      cbn [then_]. by rewrite handle_transfer_other by (rewrite Hm; done).
    + right; right. by rewrite (handle_mint_other u h t js tick Hm).
Qed.

(** One iteration of the loop does nothing or makes one mutator call. *)
Lemma Exec_body_applied u (h h' : Header) (t : OrdTransfer) :
  flow_result (Exec_body u h t) = Ok h' -> applied u h t h'.
Proof.
  unfold Exec_body. intros H.
  repeat match type of H with
  | flow_result (if ?c then Continue _ else _) = Ok _ =>
      destruct c eqn:?; [simplify_flow H; apply applied_skip|]
  | flow_result (match ?x with Some _ => _ | None => Continue _ end) = Ok _ =>
      destruct x eqn:?; [|simplify_flow H; apply applied_skip]
  end.
  tests.
  match type of H with flow_result ?c = _ =>
    destruct (blocks_cases u h t (Unmarshal (Content t)) (ToLower s)) as [Hc|[Hc|Hc]];
    cbv zeta in Hc; rewrite Hc in H end.
  - by eapply handle_deploy_applied.
  - by eapply handle_mint_applied.
  - by eapply handle_transfer_applied.
Qed.

Lemma applied_staged u (h h' : Header) (t : OrdTransfer) :
  applied u h t h' -> exists ws, staged h h' ws.
Proof.
  intros [].
  - eexists. apply staged_refl.
  - match goal with H : deployInscribe _ _ _ _ _ _ _ _ = Ok _ |- _ =>
      apply deployInscribe_staged in H as (?&?&?&?&?&?&?) end. eauto.
  - match goal with H : mintInscribe _ _ _ _ _ _ = Ok _ |- _ =>
      apply mintInscribe_staged in H as (?&?&?&?&?&?&?&?&?&?&?&?&?&?&?&?&?) end. eauto.
  - match goal with H : transferInscribe _ _ _ _ _ _ _ = Ok _ |- _ =>
      apply transferInscribe_staged in H as (?&?&?&?&?&?&?) end. eauto.
  - destruct (SentAsFee t).
    + match goal with H : transferTransferSpendToFee _ _ _ _ _ = Ok _ |- _ =>
        apply transferTransferSpendToFee_staged in H
          as (?&?&?&?&?&?&?&?&?&?&?&?) end. eauto.
    + match goal with H : transferTransferNormal _ _ _ _ _ _ _ = Ok _ |- _ =>
        apply transferTransferNormal_staged in H
          as (?&?&?&?&?&?&?&?&?&?&?&?&?&?&?&?&?&?&?&?&?&?&?&?) end. eauto.
Qed.

Lemma Exec_loop_cons u (h : Header) (t : OrdTransfer) (ts : list OrdTransfer) :
  Exec_loop u h (t :: ts) = (h1 <-! flow_result (Exec_body u h t); Exec_loop u h1 ts).
Proof. simpl. by destruct (Exec_body u h t). Qed.

Lemma Exec_loop_staged u (ts : list OrdTransfer) (h h' : Header) :
  Exec_loop u h ts = Ok h' -> exists ws, staged h h' ws.
Proof.
  revert h. induction ts as [|t ts IH]; intros h H.
  - inversion H; subst. eexists. apply staged_refl.
  - rewrite Exec_loop_cons in H. apply rbind_ok in H as (h1 & H1 & H).
    apply Exec_body_applied, applied_staged in H1 as [ws1 H1].
    apply IH in H as [ws2 H2]. eexists. by eapply staged_trans.
Qed.

Lemma Exec_unfold (h : Header) (ts : list OrdTransfer) :
  Exec h ts = Exec_loop getLimit h ts.
Proof. unfold Exec. by destruct ts. Qed.


(** ** Deploy of a tick that exists (C8) *)

Lemma GetHash_other_id (s1 s2 : Z) (uid tick : string) (k : list Z) :
  GetHash s1 uid tick = Ok k -> exists k', GetHash s2 uid tick = Ok k'.
Proof.
  unfold GetHash. destruct (negb _); [done|].
  destruct (String.length tick =? 4)%nat.
  - destruct (digest_prefix (keccak224 uid) 27) as [p|]; [|done]. cbn [rbind].
    rewrite !length_app. cbn [length]. destruct (negb _); [done|]. eauto.
  - destruct (digest_prefix (keccak224 uid) 26) as [p|]; [|done]. cbn [rbind].
    rewrite !length_app. cbn [length]. destruct (negb _); [done|]. eauto.
Qed.

Lemma GetTickStatus_ok (tick : string) (kex : list Z) :
  GetHash Exists "" tick = Ok kex ->
  exists k2 k3 k4 k5, GetTickStatus tick = Ok (kex, k2, k3, k4, k5).
Proof.
  intros H. unfold GetTickStatus. rewrite H. cbn [rbind].
  destruct (GetHash_other_id Exists RemainingSupply _ _ _ H) as [k2 ->].
  destruct (GetHash_other_id Exists MaxSupply _ _ _ H) as [k3 ->].
  destruct (GetHash_other_id Exists LimitPerMint _ _ _ H) as [k4 ->].
  destruct (GetHash_other_id Exists Decimals _ _ _ H) as [k5 ->].
  cbn [rbind]. eauto.
Qed.

Lemma flow_result_deploy_chain u (h : Header) (t : OrdTransfer) js tick :
  js_get js "op" = "deploy"%string ->
  flow_result (then_ (handle_deploy u h t js tick) (fun state =>
               then_ (handle_mint u state t js tick) (fun state =>
               handle_transfer u state t js tick)))
  = flow_result (handle_deploy u h t js tick).
Proof.
  intros Hd. destruct (handle_deploy u h t js tick) as [s| |]; try done.
  cbn [then_]. rewrite handle_mint_other by (rewrite Hd; done).
  cbn [then_]. by rewrite handle_transfer_other by (rewrite Hd; done).
Qed.

Lemma handle_deploy_existing u (h : Header) (t : OrdTransfer) js tick (kex v : list Z) :
  GetHash Exists "" tick = Ok kex -> Root h !! kex = Some v -> v <> [] ->
  flow_result (handle_deploy u h t js tick) = Ok h.
Proof.
  intros Hkey Hset Hne. unfold handle_deploy.
  destruct (_ && _); [|done].
  destruct (js !! "max"%string); [|done].
  destruct (GetTickStatus_ok _ _ Hkey) as (k2 & k3 & k4 & k5 & ->).
  cbn [run Get Header_KVStorage].
  rewrite get_ok by (by eapply GetHash_length). cbn [run].
  rewrite Hset. destruct v; [done|]. reflexivity.
Qed.

Lemma Exec_body_deploy_existing u (h : Header) (t : OrdTransfer) (raw : string)
    (kex v : list Z) :
  Unmarshal (Content t) !! "op"%string = Some "deploy"%string ->
  Unmarshal (Content t) !! "tick"%string = Some raw ->
  GetHash Exists "" (ToLower raw) = Ok kex -> Root h !! kex = Some v -> v <> [] ->
  flow_result (Exec_body u h t) = Ok h.
Proof.
  intros Hop Htick Hkey Hset Hne. unfold Exec_body.
  repeat match goal with
  | |- flow_result (if ?c then Continue _ else _) = _ => destruct c; [done|]
  end.
  rewrite Htick, Hop.
  destruct (negb _); [done|].
  rewrite flow_result_deploy_chain by (unfold js_get; by rewrite Hop).
  by eapply handle_deploy_existing.
Qed.

(** C8.  A deploy record for a tick whose [exists] key holds a non-empty
    committed value is skipped: [Exec] returns the header it was given,
    with nothing staged, so the five registry values of the tick ([exists],
    [remaining_supply], [max_supply], [limit_per_mint], [decimals]) are
    what they were, now and after [Paging]. *)
Theorem deploy_of_existing_tick_skipped (h : Header) (t : OrdTransfer) (raw : string)
    (kex v : list Z)
    (Hop : Unmarshal (Content t) !! "op"%string = Some "deploy"%string)
    (Htick : Unmarshal (Content t) !! "tick"%string = Some raw)
    (Hkey : GetHash Exists "" (ToLower raw) = Ok kex)
    (Hset : Root h !! kex = Some v) (Hne : v <> []) :
  Exec h [t] = Ok h /\
  forall stateID key, GetHash stateID "" (ToLower raw) = Ok key ->
    forall h', Exec h [t] = Ok h' ->
      Get h' key = Get h key /\
      paged_lookup (Root h') (Temp h') key = paged_lookup (Root h) (Temp h) key.
Proof.
  assert (Exec h [t] = Ok h) as HE.
  { rewrite Exec_unfold, Exec_loop_cons.
    rewrite (Exec_body_deploy_existing _ _ _ _ _ _ Hop Htick Hkey Hset Hne). done. }
  split; [done|]. intros stateID key _ h' H'. rewrite HE in H'. by inversion H'; subst.
Qed.

(** ** Mint (C4) *)

Lemma Exec_single (h : Header) (t : OrdTransfer) :
  Exec h [t] = flow_result (Exec_body getLimit h t).
Proof.
  rewrite Exec_unfold, Exec_loop_cons. by destruct (flow_result _).
Qed.





(** ** Balance writes (C7) *)

(** A record that [Exec] applies stages the same new value
    under the wallet key and under the pkscript key of every balance it
    updates: for a mint the available and the overall balance of the
    minter; for a transfer inscription the available balance of the
    inscriber; for a spend as fee the available balance of the recorded
    source; for a normal spend the overall balance of the recorded source
    and the available and overall balances of the receiver.  Nothing else
    is staged under a balance key. *)
Theorem balance_writes_paired (h h' : Header) (t : OrdTransfer)
    (Hrun : Exec h [t] = Ok h') :
  h' = h \/
  (exists tick k1 k2 k3 k4 k5 v1 v2 v3 v4 v5,
     GetTickStatus tick = Ok (k1, k2, k3, k4, k5) /\
     staged h h' [(k1, v1); (k2, v2); (k3, v3); (k4, v4); (k5, v5)]) \/
  (exists tick kap kop kaw kow krs x y z,
     let minter := string_of_bytes (decodeBitcoinAddress (NewWallet t)) in
     GetHash AvailableBalance minter tick = Ok kaw /\
     GetHash AvailableBalancePkscript (NewPkscript t) tick = Ok kap /\
     GetHash OverallBalance minter tick = Ok kow /\
     GetHash OverallBalancePkscript (NewPkscript t) tick = Ok kop /\
     GetHash RemainingSupply "" tick = Ok krs /\
     staged h h' [(kap, x); (kop, y); (kaw, x); (kow, y); (krs, z)]) \/
  (exists tick kaw kap x c,
     let inscriber := string_of_bytes (decodeBitcoinAddress (NewWallet t)) in
     GetHash AvailableBalance inscriber tick = Ok kaw /\
     GetHash AvailableBalancePkscript (NewPkscript t) tick = Ok kap /\
     staged h h' ([(kaw, x); (kap, x)]
                  ++ source_writes (InscriptionID t) inscriber (NewPkscript t)
                  ++ [(GetEventHash TransferInscribeCount (InscriptionID t), c)])) \/
  (exists tick sourceAddr sourcePkScript kaw kap x c,
     getSourceWalletAndPkscript h (InscriptionID t) = Ok (sourceAddr, sourcePkScript) /\
     GetHash AvailableBalance sourceAddr tick = Ok kaw /\
     GetHash AvailableBalancePkscript sourcePkScript tick = Ok kap /\
     staged h h' [(kaw, x); (kap, x);
                  (GetEventHash TransferTransferCount (InscriptionID t), c)]) \/
  (exists tick sourceAddr sourcePkScript kow kop saw sow sap sop x y z c,
     let receiver := string_of_bytes (decodeBitcoinAddress (NewWallet t)) in
     getSourceWalletAndPkscript h (InscriptionID t) = Ok (sourceAddr, sourcePkScript) /\
     GetHash OverallBalance sourceAddr tick = Ok kow /\
     GetHash OverallBalancePkscript sourcePkScript tick = Ok kop /\
     GetHash AvailableBalance receiver tick = Ok saw /\
     GetHash AvailableBalancePkscript (NewPkscript t) tick = Ok sap /\
     GetHash OverallBalance receiver tick = Ok sow /\
     GetHash OverallBalancePkscript (NewPkscript t) tick = Ok sop /\
     staged h h' [(kow, x); (kop, x); (saw, y); (sow, z); (sap, y); (sop, z);
                  (GetEventHash TransferTransferCount (InscriptionID t), c)]).
Proof.
  rewrite Exec_single in Hrun. apply Exec_body_applied in Hrun.
  destruct Hrun as [|? tick ? ? ? ? h' _ _ _ _ _ _ _ _ _ _ _ _ Hd
                    |? tick ? ? ? ? ? ? h' _ _ _ _ _ _ _ _ _ _ _ _ _ _ _ _ Hm
                    |? tick ? ? ? ? ? ? h' _ _ _ _ _ _ _ _ _ _ _ _ _ _ _ Hi
                    |? tick ? ? ? ? h' _ _ _ _ _ _ _ _ _ _ _ _ _ Hs].
  - by left.
  - right; left. apply deployInscribe_staged in Hd as (k1 & k2 & k3 & k4 & k5 & Hk & Hst).
    by do 11 eexists.
  - right; right; left.
    apply mintInscribe_staged in Hm
      as (kap & kop & kaw & kow & krs' & a & o & r & ? & ? & ? & ? & ? & _ & _ & _ & Hst).
    exists tick, kap, kop, kaw, kow, krs'. do 3 eexists. cbv zeta.
    repeat (split; [eassumption|]). exact Hst.
  - right; right; right; left.
    apply transferInscribe_staged in Hi as (kaw & kap' & cnt & ? & ? & _ & Hst).
    exists tick, kaw, kap'. do 2 eexists. cbv zeta.
    repeat (split; [eassumption|]). exact Hst.
  - destruct (SentAsFee t).
    + right; right; right; right; left.
      apply transferTransferSpendToFee_staged in Hs
        as (sa & sp & kaw & kap & last & cnt & ? & ? & ? & _ & _ & Hst).
      exists tick, sa, sp, kaw, kap. do 2 eexists.
      repeat (split; [eassumption|]). exact Hst.
    + right; right; right; right; right.
      apply transferTransferNormal_staged in Hs
        as (sa & sp & kow & kop & saw & sow & sap & sop & ov & av & sov & cnt
            & ? & ? & ? & ? & ? & ? & ? & _ & _ & _ & _ & Hst).
      exists tick, sa, sp, kow, kop, saw, sow, sap, sop. do 4 eexists. cbv zeta.
      repeat (split; [eassumption|]). exact Hst.
Qed.

(** ** Invariants of the reachable headers *)

Local Arguments GetEventHash : simpl never.
Local Arguments source_writes : simpl never.

Lemma GetEventHash_inj (e1 e2 : list Z) (id1 id2 : string) :
  length e1 = length e2 ->
  GetEventHash e1 id1 = GetEventHash e2 id2 ->
  e1 = e2 /\ keccak224 id1 = keccak224 id2.
Proof. intros Hl H. unfold GetEventHash in H. by apply app_inj_1 in H. Qed.


Lemma u256_add_0_1 : u256_add 0 1 = 1.
Proof. reflexivity. Qed.

(** Membership in a list of writes given by its elements. *)
Ltac split_elem H :=
  repeat (rewrite ?elem_of_app, ?elem_of_cons, ?elem_of_nil in H);
  repeat match type of H with
  | _ \/ _ => destruct H as [H|H]
  | False => destruct H
  end.

Lemma source_writes_keys (id w pk : string) (k : list Z) :
  k ∈ (source_writes id w pk).*1 ->
  k = GetEventHash TransferInscribeSourceWallet id \/
  k = GetEventHash TransferInscribeSourcePkscript1 id \/
  k = GetEventHash TransferInscribeSourcePkscript2 id.
Proof.
  unfold source_writes. intros H.
  destruct (32 <? _)%nat; cbn in H; split_elem H; auto.
Qed.



Lemma staged_value_Some (log : list TripleElement) (k v : list Z) :
  staged_value log k = Some v -> exists e, e ∈ log /\ Key e = k /\ NewValue e = v.
Proof.
  induction log as [|e log IH]; [done|]. cbn [staged_value].
  destruct (staged_value log k) as [v'|].
  - intros H. inversion H; subst. destruct IH as (e' & ? & ? & ?); [done|].
    exists e'. rewrite elem_of_cons. auto.
  - destruct (decide (Key e = k)); [|done]. intros H. inversion H; subst.
    exists e. rewrite elem_of_cons. auto.
Qed.



Lemma staged_temp_elem (h h' : Header) ws (e : TripleElement) :
  staged h h' ws -> e ∈ Temp h' -> e ∈ Temp h \/ (Key e, NewValue e) ∈ ws.
Proof.
  intros (_ & _ & _ & _ & (es & HT & Hw) & _) He. rewrite HT in He.
  apply elem_of_app in He as [He|He]; [by left|]. right. subst ws.
  unfold writes_of. by apply (list_elem_of_fmap_2 (fun e => (Key e, NewValue e))).
Qed.







(** ** The spend guard (C2, C10) *)

Lemma GetUInt256_None (h : Header) (k : list Z) :
  length k = 32%nat -> Root h !! k = None -> GetUInt256 h k = Ok 0.
Proof. intros Hk Hn. unfold GetUInt256. rewrite get_ok by done. cbn. by rewrite Hn. Qed.

Lemma GetUInt256_total (h : Header) (k : list Z) :
  length k = 32%nat -> exists c, GetUInt256 h k = Ok c.
Proof.
  intros Hk. unfold GetUInt256. rewrite get_ok by done. cbn.
  destruct (Root h !! k) as [v|]; [|eauto]. destruct (length v =? 0)%nat; eauto.
Qed.



Lemma count_one : SetBytes (convertIntToByte 1) = 1.
Proof. reflexivity. Qed.




(** ** Paired balances in the view of a header (C7) *)

Lemma staged_value_app (l1 l2 : list TripleElement) (k : list Z) :
  staged_value (l1 ++ l2) k
  = match staged_value l2 k with Some v => Some v | None => staged_value l1 k end.
Proof.
  induction l1 as [|e l1 IH]; cbn [app staged_value].
  - by destruct (staged_value l2 k).
  - rewrite IH. by destruct (staged_value l2 k).
Qed.

Lemma staged_value_writes (es : list TripleElement) (k : list Z) :
  staged_value es k = last_write (writes_of es) k.
Proof.
  induction es as [|e es IH]; [done|]. cbn [staged_value writes_of map last_write].
  fold (writes_of es). by rewrite IH.
Qed.

Lemma view_staged (h h' : Header) ws (k : list Z) :
  staged h h' ws ->
  view h' k = match last_write ws k with Some v => Some v | None => view h k end.
Proof.
  intros (HR & _ & _ & _ & (es & HT & Hw) & _). unfold view, paged_lookup.
  rewrite HR, HT, staged_value_app, staged_value_writes, Hw.
  by destruct (last_write ws k).
Qed.

Lemma last_write_cons_ne (k1 v1 : list Z) ws (k : list Z) :
  k1 <> k -> last_write ((k1, v1) :: ws) k = last_write ws k.
Proof.
  intros Hne. cbn [last_write]. rewrite decide_False by done.
  by destruct (last_write ws k).
Qed.

Lemma last_write_miss ws (k : list Z) :
  (forall k', k' ∈ ws.*1 -> k' <> k) -> last_write ws k = None.
Proof.
  induction ws as [|[k1 v1] ws IH]; intros Hmiss; [done|].
  rewrite last_write_cons_ne.
  - apply IH. intros k' Hk'. apply Hmiss. cbn. rewrite elem_of_cons. auto.
  - apply Hmiss. cbn. rewrite elem_of_cons. auto.
Qed.

Lemma last_write_app ws1 ws2 (k : list Z) :
  last_write (ws1 ++ ws2) k
  = match last_write ws2 k with Some v => Some v | None => last_write ws1 k end.
Proof.
  induction ws1 as [|[k1 v1] ws1 IH]; cbn [app last_write].
  - by destruct (last_write ws2 k).
  - rewrite IH. by destruct (last_write ws2 k).
Qed.

(** Keys of one tick with different state ids are different. *)
Lemma GetHash_stateID (s1 s2 : Z) (u1 u2 tick : string) (k : list Z) :
  GetHash s1 u1 tick = Ok k -> GetHash s2 u2 tick = Ok k -> s1 = s2.
Proof.
  unfold GetHash, digest_prefix. destruct (negb _); [done|].
  destruct (String.length tick =? 4)%nat.
  - destruct (27 <=? length (keccak224 u1))%nat eqn:E1; [|done].
    destruct (27 <=? length (keccak224 u2))%nat eqn:E2; [|done].
    cbn [rbind]. do 2 (destruct (negb _); [done|]).
    intros H1 H2. inversion H1 as [Hk1]. inversion H2 as [Hk2]. rewrite <- Hk2 in Hk1.
    apply Nat.leb_le in E1, E2.
    apply app_inj_1 in Hk1 as [_ Hk1]; [by inversion Hk1|].
    rewrite !length_take. lia.
  - destruct (26 <=? length (keccak224 u1))%nat eqn:E1; [|done].
    destruct (26 <=? length (keccak224 u2))%nat eqn:E2; [|done].
    cbn [rbind]. do 2 (destruct (negb _); [done|]).
    intros H1 H2. inversion H1 as [Hk1]. inversion H2 as [Hk2]. rewrite <- Hk2 in Hk1.
    apply Nat.leb_le in E1, E2.
    apply app_inj_1 in Hk1 as [_ Hk1]; [by inversion Hk1|].
    rewrite !length_take. lia.
Qed.

Lemma last_write_events ws (stateID : Z) (uniqueID tick : string) (k : list Z) :
  (forall k', k' ∈ ws.*1 -> exists eventID id, eventID ∈ event_ids /\
                                                k' = GetEventHash eventID id) ->
  GetHash stateID uniqueID tick = Ok k -> last_write ws k = None.
Proof.
  intros Hev Hk. apply last_write_miss. intros k' Hk' ->.
  destruct (Hev _ Hk') as (e & id & He & Heq).
  by eapply state_keys_apart.
Qed.

Lemma inscribe_event_writes (id w pk : string) (c k' : list Z) :
  k' ∈ (source_writes id w pk ++ [(GetEventHash TransferInscribeCount id, c)]).*1 ->
  exists eventID id', eventID ∈ event_ids /\ k' = GetEventHash eventID id'.
Proof.
  rewrite fmap_app, elem_of_app. cbn -[source_writes]. rewrite list_elem_of_singleton.
  unfold event_ids.
  intros [[-> | [-> | ->]]%source_writes_keys | ->]; do 2 eexists;
    (split; [|reflexivity]); rewrite !elem_of_cons; auto 10.
Qed.

(** Refute an equation between two keys of different state ids, or between
    a state key and an event key. *)
Ltac key_clash E :=
  first
  [ subst;
    match goal with
    | H1 : GetHash ?s1 _ _ = Ok ?k, H2 : GetHash ?s2 _ _ = Ok ?k |- _ =>
        let Hs := fresh in
        pose proof (GetHash_stateID _ _ _ _ _ _ H1 H2) as Hs; discriminate Hs
    end
  | match goal with
    | H : GetHash _ _ _ = Ok _ |- _ =>
        first [rewrite <- E in H | rewrite E in H];
        exfalso; eapply state_keys_apart; [exact H| |reflexivity];
        unfold event_ids; rewrite !elem_of_cons; auto 10
    end ].

(** Decide every comparison of keys in the goal, dropping the impossible
    ones. *)
Ltac split_keys :=
  repeat match goal with
  | |- context [decide (?a = ?b)] =>
      let E := fresh "E" in
      destruct (decide (a = b)) as [E|E]; [try (key_clash E)|]
  end.

Lemma Ok_iff (a b c d : list Z) :
  (@Ok (list Z) a = Ok b <-> @Ok (list Z) c = Ok d) -> (b = a <-> d = c).
Proof.
  intros [P1 P2]. split; intros ->.
  - specialize (P1 eq_refl). congruence.
  - specialize (P2 eq_refl). congruence.
Qed.

(** C7, amended.  Take a set of holders (wallet key, pkscript) in which
    wallets and pkscripts are paired one to one for the tick of a record,
    and which holds the receiver named by the record and, when the record
    moves an inscription, the source recorded for it.  If every holder of
    the set has, in the values [Paging] will commit, the same available
    balance and the same overall balance under its wallet key and under
    its pkscript key, then this is still so after [Exec] has handled the
    record. *)
Theorem paired_balances_preserved (holders : list (string * string)) (h h' : Header)
    (t : OrdTransfer) (raw : string)
    (Hrun : Exec h [t] = Ok h')
    (Htick : Unmarshal (Content t) !! "tick"%string = Some raw)
    (Hone : one_to_one holders (ToLower raw))
    (Hnew : (string_of_bytes (decodeBitcoinAddress (NewWallet t)), NewPkscript t) ∈ holders)
    (Hsrc : forall sa sp, OldSatpoint t <> ""%string ->
              getSourceWalletAndPkscript h (InscriptionID t) = Ok (sa, sp) ->
              (sa, sp) ∈ holders)
    (Hinv : forall w p, (w, p) ∈ holders -> paired_view h w p (ToLower raw)) :
  forall w p, (w, p) ∈ holders -> paired_view h' w p (ToLower raw).
Proof.
  intros w p Hwp kaw' kap' kow' kop' Hkaw' Hkap' Hkow' Hkop'.
  destruct (Hinv w p Hwp _ _ _ _ Hkaw' Hkap' Hkow' Hkop') as [Hav Hov].
  rewrite Exec_single in Hrun. apply Exec_body_applied in Hrun.
  destruct Hrun as [ | raw0 tick mx dc lm kex h' Hr Ht Hlen Hop Hold Hex Hno Hd Hm1 Hm2 Hl1 Hl2 Hdo
                     | raw0 tick ams am kex krs klim kdec h' Hr Ht Hlen Hop Hold Hams Hex Hrs Hlim Hdec Hno Ham Hu Hnz Hr0 Hle Hdo
                     | raw0 tick ams am kex kdec kap ab h' Hr Ht Hlen Hop Hold Hams Hex Hdec Hno Ham Hu Hnz Hkap Hab Hle Hdo
                     | raw0 tick ams am kex kdec h' Hr Ht Hlen Hop Hold Hams Hex Hdec Hno Ham Hu Hnz Hused Hdo ].
  - done.
  - rewrite Htick in Hr. inversion Hr; subst raw0 tick.
    apply deployInscribe_staged in Hdo as (k1 & k2 & k3 & k4 & k5 & Hks & Hst).
    apply GetTickStatus_inv in Hks as (H1 & H2 & H3 & H4 & H5).
    rewrite !(view_staged _ _ _ _ Hst). cbn [last_write]. split_keys. done.
  - rewrite Htick in Hr. inversion Hr; subst raw0 tick.
    apply mintInscribe_staged in Hdo
      as (kap & kop & kaw & kow & krs' & a & o & r & Hkap & Hkop & Hkaw & Hkow & Hkrs & _ & _ & _ & Hst).
    destruct (Hone _ _ _ _ Hwp Hnew) as [Pa Po].
    rewrite Hkaw', Hkap', Hkaw, Hkap in Pa. rewrite Hkow', Hkop', Hkow, Hkop in Po.
    apply Ok_iff in Pa, Po.
    rewrite !(view_staged _ _ _ _ Hst). cbn [last_write]. split_keys.
    all: try (exfalso; tauto).
    all: try (split; congruence).
  - rewrite Htick in Hr. inversion Hr; subst raw0 tick.
    apply transferInscribe_staged in Hdo as (kaw & kap0 & cnt & Hkaw & Hkap0 & _ & Hst).
    destruct (Hone _ _ _ _ Hwp Hnew) as [Pa _].
    rewrite Hkaw', Hkap', Hkaw, Hkap0 in Pa. apply Ok_iff in Pa.
    rewrite !(view_staged _ _ _ _ Hst), !(last_write_app [_; _]).
    rewrite !(last_write_events _ _ _ _ _ (inscribe_event_writes _ _ _ _) Hkaw'),
            !(last_write_events _ _ _ _ _ (inscribe_event_writes _ _ _ _) Hkap'),
            !(last_write_events _ _ _ _ _ (inscribe_event_writes _ _ _ _) Hkow'),
            !(last_write_events _ _ _ _ _ (inscribe_event_writes _ _ _ _) Hkop').
    cbn [last_write]. split_keys.
    all: try (exfalso; tauto).
    all: try (split; congruence).
  - rewrite Htick in Hr. inversion Hr; subst raw0 tick.
    destruct (SentAsFee t).
    + apply transferTransferSpendToFee_staged in Hdo
        as (sa & sp & kaw & kap & last & cnt & Hsp & Hkaw & Hkap & _ & _ & Hst).
      destruct (Hone _ _ _ _ Hwp (Hsrc _ _ Hold Hsp)) as [Pa _].
      rewrite Hkaw', Hkap', Hkaw, Hkap in Pa. apply Ok_iff in Pa.
      rewrite !(view_staged _ _ _ _ Hst). cbn [last_write]. split_keys.
      all: try (exfalso; tauto).
      all: try (split; congruence).
    + apply transferTransferNormal_staged in Hdo
        as (sa & sp & kow & kop & saw & sow & sap & sop & ov & av & sov & cnt &
            Hsp & Hkow & Hkop & Hsaw & Hsow & Hsap & Hsop & _ & _ & _ & _ & Hst).
      destruct (Hone _ _ _ _ Hwp (Hsrc _ _ Hold Hsp)) as [_ Po].
      destruct (Hone _ _ _ _ Hwp Hnew) as [Qa Qo].
      rewrite Hkow', Hkop', Hkow, Hkop in Po. apply Ok_iff in Po.
      rewrite Hkaw', Hkap', Hsaw, Hsap in Qa. apply Ok_iff in Qa.
      rewrite Hkow', Hkop', Hsow, Hsop in Qo. apply Ok_iff in Qo.
      rewrite !(view_staged _ _ _ _ Hst). cbn [last_write]. split_keys.
      all: try (exfalso; tauto).
      all: try (split; congruence).
Qed.

End OnHeader.

(** ** [InsertBytes] on any blob of full slots *)

Lemma staged_value_app_miss (l1 l2 : list TripleElement) (k : list Z) :
  (forall e, e ∈ l2 -> Key e <> k) -> staged_value (l1 ++ l2) k = staged_value l1 k.
Proof.
  intros Hmiss. induction l1 as [|e l1 IH]; cbn [app staged_value].
  - destruct (staged_value l2 k) as [v|] eqn:E; [|done].
    apply staged_value_Some in E as (e & He & Hk & _). by apply Hmiss in He.
  - by rewrite IH.
Qed.

Lemma staged_value_last (l : list TripleElement) (e : TripleElement) :
  staged_value (l ++ [e]) (Key e) = Some (NewValue e).
Proof.
  induction l as [|e' l IH]; cbn [app staged_value].
  - by rewrite decide_True.
  - by rewrite IH.
Qed.

Lemma InsertBytes_loop_full (key blob : list Z) (s : Z) (n : nat) (idxs : list nat)
    (h : Header) :
  length key = 32%nat -> length blob = (n * 32)%nat ->
  Forall (fun i => (i < n)%nat) idxs ->
  exists h',
    InsertBytes_loop h key s blob [] idxs = Ok h' /\
    Root h' = Root h /\ KV h' = KV h /\
    exists es,
      Temp h' = Temp h ++ es /\
      writes_of es
      = map (fun i => (set_suffix key (byte_wrap (s + byte_wrap (Z.of_nat i))),
                       take 32 (drop (i * 32) blob))) idxs.
Proof.
  intros Hkey Hblob. revert h. induction idxs as [|i idxs IH]; intros h Hall.
  - exists h. repeat split. exists []. by rewrite app_nil_r.
  - apply Forall_cons in Hall as [Hi Hall]. cbn [InsertBytes_loop].
    unfold reslice, ValueSize. rewrite app_nil_r, Nat.add_0_r.
    assert ((i + 1) * 32 <= length blob)%nat as Hfit by lia.
    apply Nat.leb_le in Hfit. rewrite Hfit. cbn [rbind].
    replace ((i + 1) * 32 - i * 32)%nat with 32%nat by lia.
    rewrite insert_ok; cycle 1.
    { unfold set_suffix. by rewrite length_insert. }
    { rewrite length_take, length_drop. apply Nat.leb_le in Hfit. lia. }
    cbn [rbind].
    destruct (IH (push h (set_suffix key (byte_wrap (s + byte_wrap (Z.of_nat i))))
                    (take 32 (drop (i * 32) blob))) Hall)
      as (h' & Hrun & HR & HK & es & HT & Hw).
    exists h'. split; [exact Hrun|]. split; [exact HR|]. split; [exact HK|].
    eexists (_ :: es). split.
    + rewrite HT. cbn [Temp push]. by rewrite <- app_assoc.
    + unfold writes_of in *. cbn [map Key NewValue]. by rewrite Hw.
Qed.

(** For every header, every 32-byte stem key and every blob of [n >= 1]
    full slots that fits under the key, [InsertBytes] succeeds and the
    value it leaves staged for the stem key is the first slot of the blob,
    not the slot count: after [Paging] the stem key holds [blob[0:32]]. *)
Lemma InsertBytes_stores_first_slot_over_count (h : Header) (key blob : list Z)
    (s : Z) (n : nat) (GetBlockHash : Z -> string + string) (queryHash : bool) :
  length key = 32%nat -> key !! 31%nat = Some s -> 0 <= s ->
  length blob = (n * 32)%nat -> (0 < n)%nat -> Z.of_nat n <= 256 - s ->
  exists h',
    InsertBytes h key blob [] = Ok h' /\
    staged_value (new_entries h h') key = Some (take 32 blob) /\
    (Temp h = [] ->
     Root (fst (Paging h' GetBlockHash queryHash)) !! key = Some (take 32 blob)).
Proof.
  intros Hkey Hs Hs0 Hblob Hn Hfit.
  unfold InsertBytes, StemSize, NodeWidth, ValueSize, KeySize. rewrite Hs.
  assert (((256 - s) * Z.of_nat 32 <? Z.of_nat (length blob)) = false) as ->.
  { apply Z.ltb_ge. rewrite Hblob. lia. }
  assert ((length blob + 32 - 1) / 32 = n)%nat as ->.
  { rewrite Hblob. replace (n * 32 + 32 - 1)%nat with (31 + n * 32)%nat by lia.
    rewrite Nat.div_add by lia. reflexivity. }
  rewrite copy_into_exact by done.
  unfold InsertUInt256. rewrite insert_ok by (done || apply be_bytes_length).
  cbn [rbind].
  destruct n as [|m]; [lia|]. cbn [seq].
  destruct (InsertBytes_loop_full key blob s (S m) (0%nat :: seq 1 m)
              (push h key (WriteToArray32 (Z.of_nat (S m)))) Hkey Hblob)
    as (h' & Hrun & HR & HK & es & HT & Hw).
  { constructor; [lia|]. apply Forall_forall. intros i Hi%elem_of_seq. lia. }
  exists h'. split; [exact Hrun|].
  assert (set_suffix key (byte_wrap (s + byte_wrap (Z.of_nat 0))) = key) as Hk0.
  { unfold set_suffix, byte_wrap, StemSize. cbn [Z.of_nat].
    rewrite Z.mod_0_l, Z.add_0_r, Z.mod_small by lia. by apply list_insert_id. }
  assert (staged_value (new_entries h h') key = Some (take 32 blob)) as Hstaged.
  { unfold new_entries. rewrite HT. cbn [Temp push].
    rewrite <- app_assoc, drop_app_length.
    destruct es as [|e0 es]; [done|]. cbn [map writes_of] in Hw.
    inversion Hw as [[Hke Hve Hrest]]. rewrite Hk0 in Hke. rewrite drop_0 in Hve.
    cbn [app].
    match goal with |- staged_value (?c :: e0 :: es) key = _ =>
      change (c :: e0 :: es) with ([c; e0] ++ es);
      pose proof (staged_value_last [c] e0) as Hlast
    end.
    rewrite Hke, Hve in Hlast.
    rewrite staged_value_app_miss.
    - exact Hlast.
    - intros e He Habs.
      apply list_elem_of_In, (in_map (fun e => (Key e, NewValue e))) in He.
      rewrite Hrest in He.
      apply in_map_iff in He as (i & Hei & Hi%in_seq).
      rewrite Habs in Hei. apply (f_equal fst) in Hei. cbn [fst] in Hei.
      apply (f_equal (fun l : list Z => l !! 31%nat)) in Hei.
      unfold set_suffix, StemSize in Hei.
      rewrite list_lookup_insert_eq, Hs in Hei by lia.
      inversion Hei as [Hsi]. unfold byte_wrap in Hsi.
      rewrite (Z.mod_small (Z.of_nat i)) in Hsi by lia.
      rewrite Z.mod_small in Hsi by lia. lia. }
  split; [exact Hstaged|].
  intros Hempty.
  destruct (Paging_fields h' GetBlockHash queryHash) as (_ & -> & _).
  destruct (page_elements_lookup (KV h') (Root h') (Temp h') key) as [_ ->].
  unfold new_entries in Hstaged. rewrite Hempty in Hstaged. cbn [length] in Hstaged.
  rewrite drop_0 in Hstaged. unfold paged_lookup. by rewrite Hstaged.
Qed.

(** ** Reads within a batch (C1) *)


(** The mint that follows the deploy of its tick in the same batch is
    skipped: the batch stages what the deploy alone stages. *)
Lemma mint_after_deploy_in_batch_skipped :
  Exec (env := Standin.environment) Scenario.h0 [Scenario.deploy1000; Scenario.mint500]
  = Exec (env := Standin.environment) Scenario.h0 [Scenario.deploy1000].
Proof. vm_compute. reflexivity. Qed.


(** ** Deploy then second deploy (C8, scenario 1) *)

(** After the deploy of "test" with max 1000 and dec 18 has been paged, a
    deploy of "test" with max 9999 in a later block leaves [max_supply] at
    1000 * 10^18. *)
Lemma second_deploy_keeps_max_supply :
  let run := [[Scenario.deploy1000dec18]; [Scenario.deploy9999]] in
  Scenario.completes run /\
  GetUInt256 (Scenario.final run) (Scenario.key_of MaxSupply "") = Ok (1000 * 10 ^ 18) /\
  GetUInt256 (Scenario.final run) (Scenario.key_of RemainingSupply "") = Ok (1000 * 10 ^ 18) /\
  GetUInt256 (Scenario.final run) (Scenario.key_of Decimals "") = Ok 18.
Proof. cbv zeta. repeat apply conj; vm_compute; reflexivity. Qed.

Lemma deploy_of_existing_tick_witness :
  Exec (env := Standin.environment) Scenario.deployed18 [Scenario.deploy9999]
    = Ok Scenario.deployed18 /\
  forall stateID key,
    GetHash (env := Standin.environment) stateID "" (ToLower (Environment := Standin.environment) "test") = Ok key ->
    forall h', Exec (env := Standin.environment) Scenario.deployed18 [Scenario.deploy9999] = Ok h' ->
      Get h' key = Get Scenario.deployed18 key /\
      paged_lookup (Root h') (Temp h') key
      = paged_lookup (Root Scenario.deployed18) (Temp Scenario.deployed18) key.
Proof.
  apply (deploy_of_existing_tick_skipped (env := Standin.environment)
           Scenario.deployed18 Scenario.deploy9999 "test"
           (Scenario.key_of Exists "") (replicate 32 0)).
  - vm_compute. reflexivity.
  - vm_compute. reflexivity.
  - vm_compute. reflexivity.
  - vm_compute. reflexivity.
  - discriminate.
Defined.

(** ** Mint scenarios (C4, scenarios 2 and 3) *)

(** With max 1000 and lim 100, a mint of 150 is skipped. *)
Lemma mint_over_limit_skipped :
  let run := [[Scenario.deploy1000lim100]; [Scenario.mint150]] in
  Scenario.completes run /\
  GetUInt256 (Scenario.final run) (Scenario.key_of RemainingSupply "") = Ok (1000 * 10 ^ 18) /\
  GetUInt256 (Scenario.final run) (Scenario.key_of OverallBalance Scenario.walletA) = Ok 0.
Proof. cbv zeta. repeat apply conj; vm_compute; reflexivity. Qed.

(** With 30 remaining, a mint of 100 credits 30 and leaves 0. *)
Lemma partial_final_mint :
  let run := [[Scenario.deploy30lim100]; [Scenario.mint100]] in
  Scenario.completes run /\
  GetUInt256 (Scenario.final run) (Scenario.key_of RemainingSupply "") = Ok 0 /\
  GetUInt256 (Scenario.final run) (Scenario.key_of AvailableBalance Scenario.walletA)
    = Ok (30 * 10 ^ 18) /\
  GetUInt256 (Scenario.final run) (Scenario.key_of OverallBalance Scenario.walletA)
    = Ok (30 * 10 ^ 18) /\
  GetUInt256 (Scenario.final run) (Scenario.key_of AvailableBalancePkscript "aa")
    = Ok (30 * 10 ^ 18) /\
  GetUInt256 (Scenario.final run) (Scenario.key_of OverallBalancePkscript "aa")
    = Ok (30 * 10 ^ 18).
Proof. cbv zeta. repeat apply conj; vm_compute; reflexivity. Qed.


(** ** Underflow of the overall balance (C6) *)


(** The same subtraction wraps whenever the record of a movement carries a
    larger amount than the inscription reserved: nothing compares the
    amount of the spend with the overall balance of the source. *)
Lemma overall_balance_wraps_on_larger_amount :
  let run := [[Scenario.deploy1000]; [Scenario.mint500]; [Scenario.insZ100];
              [Scenario.spendZ600]] in
  Scenario.completes run /\
  GetUInt256 (Scenario.final run) (Scenario.key_of OverallBalance Scenario.walletA)
    = Ok (2 ^ 256 - 100 * 10 ^ 18).
Proof. cbv zeta. repeat apply conj; vm_compute; reflexivity. Qed.

(** ** Balance consistency (C7) *)

(** C7, as the specification states it, fails: two outputs without an
    address share the empty wallet; after a mint of 500 to the first and a
    mint of 100 to the second, the wallet-keyed balance is 100 and the
    balance keyed by the first pkscript is 500. *)
Lemma holders_not_consistent :
  ~ Scenario.holders_consistent_after
      [[Scenario.deployN]; [Scenario.mintN1]; [Scenario.mintN2]].
Proof.
  intros H.
  destruct (H (Scenario.header_of
                 (Standin.blocks Scenario.h0
                    [[Scenario.deployN]; [Scenario.mintN1]; [Scenario.mintN2]]))
              ltac:(vm_compute; reflexivity) Scenario.mintN1)
    as (kaw & kap & kow & kop & Hkaw & Hkap & _ & _ & Hav & _).
  { cbn. set_solver. }
  vm_compute in Hkaw. vm_compute in Hkap.
  inversion Hkaw; subst kaw. inversion Hkap; subst kap.
  vm_compute in Hav. discriminate Hav.
Qed.

Lemma balance_writes_paired_witness :
  exists h', Exec (env := Standin.environment) Scenario.deployed [Scenario.mint500] = Ok h' /\
    (h' = Scenario.deployed \/ Temp h' <> Temp Scenario.deployed).
Proof.
  exists (Scenario.header_of
            (Exec (env := Standin.environment) Scenario.deployed [Scenario.mint500])).
  assert (Exec (env := Standin.environment) Scenario.deployed [Scenario.mint500]
          = Ok (Scenario.header_of
                  (Exec (env := Standin.environment) Scenario.deployed [Scenario.mint500])))
    as Hrun by (vm_compute; reflexivity).
  split; [exact Hrun|].
  destruct (balance_writes_paired (env := Standin.environment) _ _ _ Hrun)
    as [->|_]; [by left|].
  right. vm_compute. discriminate.
Defined.

(** ** The stand-in environment meets the hypotheses on the digest *)

Lemma standin_digest_length (s : string) :
  length (keccak224 (Environment := Standin.environment) s) = 28%nat.
Proof.
  cbn [keccak224 Standin.environment]. unfold Standin.digest.
  rewrite length_take. cbn [length]. rewrite length_app, length_replicate. lia.
Qed.

Lemma standin_state_key_head (stateID : Z) (uniqueID tick : string) (key : list Z) :
  GetHash (env := Standin.environment) stateID uniqueID tick = Ok key ->
  key !! 0%nat = Some 255.
Proof.
  unfold GetHash, digest_prefix. cbn [keccak224 Standin.environment].
  destruct (negb _); [done|].
  pose proof (standin_digest_length uniqueID) as Hlen.
  cbn [keccak224 Standin.environment] in Hlen. rewrite Hlen.
  unfold Standin.digest.
  destruct (String.length tick =? 4)%nat; cbn -[replicate bytes_of_string];
    destruct (negb _); intros H; by inversion H.
Qed.

Lemma standin_state_keys_apart (stateID : Z) (uniqueID tick : string) (key : list Z)
    (eventID : list Z) (id : string) :
  GetHash (env := Standin.environment) stateID uniqueID tick = Ok key ->
  eventID ∈ event_ids ->
  key <> GetEventHash (env := Standin.environment) eventID id.
Proof.
  intros H%standin_state_key_head He ->. unfold event_ids in He.
  rewrite !elem_of_cons, elem_of_nil in He.
  destruct He as [->|[->|[->|[->|[->|[]]]]]]; cbn in H; discriminate H.
Qed.

Lemma blocks_reachable (batches : list (list OrdTransfer)) (paged : list OrdTransfer)
    (h h' : Header) :
  reachable (env := Standin.environment) paged [] h ->
  Standin.blocks h batches = Ok h' ->
  reachable (env := Standin.environment) (paged ++ concat batches) [] h'.
Proof.
  revert paged h. induction batches as [|b batches IH]; intros paged h Hr H.
  - inversion H; subst. by rewrite app_nil_r.
  - cbn [Standin.blocks] in H. apply rbind_ok in H as (h1 & H1 & H).
    unfold Standin.block in H1. apply rbind_ok in H1 as (h2 & H2 & H1).
    inversion H1; subst h1. cbn [concat]. rewrite app_assoc.
    eapply IH; [|exact H].
    apply (reach_paging paged ([] ++ b) h2 Standin.getter_ok false).
    by eapply reach_exec.
Qed.

(** ** Second spend (C2) *)


(** Both movements of X in one batch are paid out: B and C each receive
    300 while A is debited once. *)
Lemma double_spend_in_one_batch :
  let run := [[Scenario.deploy1000]; [Scenario.mint500]; [Scenario.insX300];
              [Scenario.spendX_B; Scenario.spendX_C]] in
  Scenario.completes run /\
  GetUInt256 (Scenario.final run) (Scenario.key_of OverallBalance Scenario.walletA)
    = Ok (200 * 10 ^ 18) /\
  GetUInt256 (Scenario.final run) (Scenario.key_of OverallBalance Scenario.walletB)
    = Ok (300 * 10 ^ 18) /\
  GetUInt256 (Scenario.final run) (Scenario.key_of OverallBalance Scenario.walletC)
    = Ok (300 * 10 ^ 18) /\
  GetUInt256 (Scenario.final run)
    (GetEventHash (env := Standin.environment) TransferTransferCount "iX") = Ok 1.
Proof. cbv zeta. repeat apply conj; vm_compute; reflexivity. Qed.

Lemma spentX_reachable :
  reachable (env := Standin.environment)
    ([] ++ concat [[Scenario.deploy1000]; [Scenario.mint500]; [Scenario.insX300];
                   [Scenario.spendX_B]]) [] Scenario.spentX.
Proof.
  eapply blocks_reachable; [apply (reach_new 0 "")|]. vm_compute. reflexivity.
Qed.

Lemma inscribedX_reachable :
  reachable (env := Standin.environment)
    ([] ++ concat [[Scenario.deploy1000]; [Scenario.mint500]; [Scenario.insX300]])
    [] Scenario.inscribedX.
Proof.
  eapply blocks_reachable; [apply (reach_new 0 "")|]. vm_compute. reflexivity.
Qed.


(** ** The recorded source (C10) *)


(** The recorded source of X read back: A's wallet slot and pkscript. *)
Lemma recorded_source_of_X :
  getSourceWalletAndPkscript (env := Standin.environment) Scenario.inscribedX "iX"
  = Ok (Scenario.walletA, "aa"%string).
Proof. vm_compute. reflexivity. Qed.

(** ** Paired balances are kept (C7) *)

Lemma paired_balances_preserved_witness :
  paired_view (env := Standin.environment) Scenario.spentX_pending
    Scenario.walletA "aa" "test" /\
  paired_view (env := Standin.environment) Scenario.spentX_pending
    Scenario.walletB "bb" "test".
Proof.
  assert (Exec (env := Standin.environment) Scenario.inscribedX [Scenario.spendX_B]
          = Ok Scenario.spentX_pending) as Hrun by (vm_compute; reflexivity).
  enough (forall w p,
            (w, p) ∈ [(Scenario.walletA, "aa"%string); (Scenario.walletB, "bb"%string)] ->
            paired_view (env := Standin.environment) Scenario.spentX_pending w p "test")
    as P by (split; apply P; rewrite !elem_of_cons; auto).
  apply (paired_balances_preserved (env := Standin.environment) standin_state_keys_apart
           [(Scenario.walletA, "aa"%string); (Scenario.walletB, "bb"%string)]
           Scenario.inscribedX Scenario.spentX_pending Scenario.spendX_B "test" Hrun).
  - vm_compute. reflexivity.
  - intros w1 p1 w2 p2 H1 H2.
    rewrite !elem_of_cons, elem_of_nil in H1, H2.
    destruct H1 as [H1|[H1|[]]], H2 as [H2|[H2|[]]];
      inversion H1; inversion H2; subst;
      (split; split; intros E; try reflexivity; vm_compute in E; discriminate E).
  - rewrite !elem_of_cons. right. left. vm_compute. reflexivity.
  - intros sa sp _ H. vm_compute in H. inversion H; subst.
    rewrite !elem_of_cons. left. vm_compute. reflexivity.
  - intros w p H. rewrite !elem_of_cons, elem_of_nil in H.
    destruct H as [H|[H|[]]]; inversion H; subst;
      intros kaw kap kow kop H1 H2 H3 H4;
      vm_compute in H1, H2, H3, H4;
      inversion H1; inversion H2; inversion H3; inversion H4; subst;
      (split; vm_compute; reflexivity).
Defined.

(** * Further properties of the store *)

(** ** Widths at the boundary of the store *)

(** X1.  A key that is not 32 bytes long makes [get], [GetUInt256],
    [insert] and [InsertUInt256] panic on the key length, whatever the
    value; with a 32-byte key, [insert] panics on a value that is not 32
    bytes long. *)
Theorem store_rejects_bad_widths (h : Header) (key value : list Z) (v : Z) :
  (length key <> 32%nat ->
     get h key = Panic KeyLength /\ GetUInt256 h key = Panic KeyLength /\
     insert h key value = Panic KeyLength /\ InsertUInt256 h key v = Panic KeyLength) /\
  (length key = 32%nat -> length value <> 32%nat ->
     insert h key value = Panic ValueLength).
Proof.
  split.
  - intros Hk. apply Nat.eqb_neq in Hk.
    unfold InsertUInt256, GetUInt256, insert, get, KeySize. rewrite Hk. done.
  - intros Hk Hv. apply Nat.eqb_neq in Hv.
    unfold insert, get, KeySize, ValueSize. rewrite Hk, Nat.eqb_refl. cbn [negb rbind].
    rewrite Hv. done.
Qed.

(** ** Round trip of a 256-bit integer *)

Lemma be_value_snoc (l : list Z) (b : Z) : be_value (l ++ [b]) = be_value l * 256 + b.
Proof. unfold be_value. by rewrite fold_left_app. Qed.

Lemma be_value_be_bytes (n : nat) (v : Z) : be_value (be_bytes n v) = v mod 256 ^ Z.of_nat n.
Proof.
  revert v. induction n as [|n IH]; intros v.
  - cbn. by rewrite Z.mod_1_r.
  - cbn [be_bytes]. rewrite be_value_snoc, IH.
    rewrite Nat2Z.inj_succ, Z.pow_succ_r by lia.
    rewrite (Z.rem_mul_r v 256 (256 ^ Z.of_nat n)) by lia. lia.
Qed.

Lemma SetBytes_WriteToArray32 (v : Z) : SetBytes (WriteToArray32 v) = u256_wrap v.
Proof.
  unfold SetBytes, WriteToArray32, u256_wrap. rewrite be_bytes_length.
  rewrite Nat.sub_diag, drop_0, be_value_be_bytes. reflexivity.
Qed.

Lemma Paging_Root_lookup {E} (h : Header) (g : Z -> string + E) (q : bool) (k : list Z) :
  Root (fst (Paging h g q)) !! k = paged_lookup (Root h) (Temp h) k.
Proof.
  destruct (Paging_fields h g q) as (_ & -> & _). apply page_elements_lookup.
Qed.

Lemma Paging_KV_lookup {E} (h : Header) (g : Z -> string + E) (q : bool) (k : list Z) :
  KV (fst (Paging h g q)) !! k = paged_lookup (KV h) (Temp h) k.
Proof.
  destruct (Paging_fields h g q) as (-> & _). apply page_elements_lookup.
Qed.

(** X2.  [InsertUInt256] of a number below [2^256] at a 32-byte key
    succeeds; until [Paging] the key reads as before, and after [Paging]
    [GetUInt256] gives the number back, whatever else was pending. *)
Theorem uint256_round_trip {E} (h : Header) (key : list Z) (v : Z)
    (g : Z -> string + E) (q : bool)
    (Hkey : length key = 32%nat) (Hv : 0 <= v < 2 ^ 256) :
  exists h1, InsertUInt256 h key v = Ok h1 /\
    GetUInt256 h1 key = GetUInt256 h key /\
    GetUInt256 (fst (Paging h1 g q)) key = Ok v.
Proof.
  unfold InsertUInt256. rewrite insert_ok by (done || apply be_bytes_length).
  eexists. split; [done|]. split; [apply GetUInt256_push|].
  unfold GetUInt256. rewrite get_ok by done. cbn [rbind].
  rewrite Paging_Root_lookup. unfold paged_lookup. cbn [push Temp].
  rewrite (staged_value_last (Temp h) (mkTriple key _ (WriteToArray32 v) _)).
  cbn [NewValue]. unfold WriteToArray32 at 1. rewrite be_bytes_length. cbn [Nat.eqb].
  rewrite SetBytes_WriteToArray32. unfold u256_wrap. by rewrite Z.mod_small.
Qed.

(** X3.  A 32-byte key the tree does not hold reads as nil with [get], as
    zero with [GetUInt256] and as the empty blob with [GetBytes]. *)
Theorem absent_key_reads_empty (h : Header) (key : list Z)
    (Hkey : length key = 32%nat) (Habs : Root h !! key = None) :
  get h key = Ok None /\ GetUInt256 h key = Ok 0 /\ GetBytes h key = Ok [].
Proof.
  split; [by rewrite get_ok, Habs|]. split; [by apply GetUInt256_None|].
  unfold GetBytes. rewrite copy_into_exact by done.
  rewrite GetUInt256_None by done. done.
Qed.

(** ** What [Paging] commits *)

(** X4.  After [Paging], whatever it returns, the tree and the flat map
    hold at every key the value of the last pending write on that key, and
    what they held before at a key without pending write; the log is empty
    and the height one more (modulo [2^64]). *)
Theorem Paging_commits_last_writes {E} (h : Header) (g : Z -> string + E) (q : bool) :
  let h' := fst (Paging h g q) in
  (forall key, Root h' !! key =
     match last_write (writes_of (Temp h)) key with
     | Some v => Some v
     | None => Root h !! key
     end) /\
  (forall key, KV h' !! key =
     match last_write (writes_of (Temp h)) key with
     | Some v => Some v
     | None => KV h !! key
     end) /\
  Temp h' = [] /\ Height h' = u64_wrap (Height h + 1).
Proof.
  cbv zeta. repeat split.
  - intros key. rewrite Paging_Root_lookup. unfold paged_lookup.
    by rewrite staged_value_writes.
  - intros key. rewrite Paging_KV_lookup. unfold paged_lookup.
    by rewrite staged_value_writes.
  - apply (Paging_fields h g q).
  - apply (Paging_fields h g q).
Qed.

(** ** Blobs: [GetBytes] and [InsertBytes] *)

Lemma copy_into_long (n : nat) (l : list Z) : (n <= length l)%nat -> copy_into n l = take n l.
Proof. intros H. unfold copy_into. by rewrite take_app_le. Qed.

Lemma set_suffix_length (key : list Z) (b : Z) : length (set_suffix key b) = length key.
Proof. unfold set_suffix. apply length_insert. Qed.

Lemma GetBytes_loop_total (h : Header) (key0 : list Z) (s : Z) (idxs : list nat)
    (acc : list Z) :
  length key0 = 32%nat -> exists v, GetBytes_loop h key0 s acc idxs = Ok v.
Proof.
  intros Hk. revert acc. induction idxs as [|i idxs IH]; intros acc; cbn [GetBytes_loop].
  - eauto.
  - rewrite get_ok by (by rewrite set_suffix_length). cbn [rbind]. apply IH.
Qed.

(** X5.  [GetBytes] reads nothing of its key beyond the first 32 bytes: on
    a key of at least 32 bytes it does not panic, and it returns what it
    returns on the key cut to 32 bytes. *)
Theorem GetBytes_uses_first_32_bytes (h : Header) (key : list Z)
    (Hkey : (32 <= length key)%nat) :
  exists v, GetBytes h key = Ok v /\ GetBytes h (take 32 key) = Ok v.
Proof.
  assert (length (take 32 key) = 32%nat) as Hl by (rewrite length_take; lia).
  assert (GetBytes h key = GetBytes h (take 32 key)) as ->.
  { unfold GetBytes, KeySize, StemSize.
    rewrite copy_into_long by done. rewrite copy_into_exact by done.
    by rewrite lookup_take_lt by lia. }
  enough (exists v, GetBytes h (take 32 key) = Ok v) as [v Hv] by eauto.
  unfold GetBytes, KeySize. rewrite copy_into_exact by done.
  destruct (GetUInt256_total h (take 32 key) Hl) as [c ->]. cbn [rbind].
  destruct (0 <? u64_wrap c); [|eauto].
  destruct (take 32 key !! StemSize) as [s|] eqn:Hs.
  - by apply GetBytes_loop_total.
  - apply lookup_ge_None in Hs. unfold StemSize in Hs. lia.
Qed.

Lemma InsertBytes_loop_keys (key0 : list Z) (s : Z) (value spare : list Z)
    (idxs : list nat) (h h' : Header) :
  InsertBytes_loop h key0 s value spare idxs = Ok h' ->
  Root h' = Root h /\ KV h' = KV h /\
  exists es, Temp h' = Temp h ++ es /\
    map Key es = map (fun i => set_suffix key0 (byte_wrap (s + byte_wrap (Z.of_nat i)))) idxs.
Proof.
  revert h. induction idxs as [|i idxs IH]; intros h; cbn [InsertBytes_loop].
  - intros [= <-]. repeat split. exists []. by rewrite app_nil_r.
  - intros H. apply rbind_ok in H as (chunk & _ & H).
    apply rbind_ok in H as (h1 & Hins & H).
    apply insert_inv in Hins as (_ & _ & ->).
    apply IH in H as (HR & HK & es & HT & Hkeys).
    split; [done|]. split; [done|].
    eexists (_ :: es). split.
    + rewrite HT. cbn [push Temp]. by rewrite <- app_assoc.
    + cbn [map Key]. by rewrite Hkeys.
Qed.

(** X6.  When [InsertBytes] returns, it has staged, in this order, one
    write at the key itself (the slot count) and one write per slot of the
    blob, slot [i] at the key whose last byte is [key[31] + i]; that byte
    never wraps around, so every write stays under the 31-byte stem of the
    key.  Tree and flat map are untouched. *)
Theorem InsertBytes_writes_within_stem (h h' : Header) (key value spare : list Z) (s : Z)
    (Hkey : length key = 32%nat) (Hs : key !! 31%nat = Some s) (Hbyte : 0 <= s < 256)
    (Hrun : InsertBytes h key value spare = Ok h') :
  let slots := ((length value + 31) / 32)%nat in
  Root h' = Root h /\ KV h' = KV h /\
  map Key (new_entries h h')
    = key :: map (fun i => <[31%nat := s + Z.of_nat i]> key) (seq 0 slots) /\
  Z.of_nat slots <= 256 - s.
Proof.
  cbv zeta. unfold InsertBytes, StemSize, NodeWidth, ValueSize, KeySize in Hrun.
  rewrite Hs in Hrun.
  destruct ((256 - s) * Z.of_nat 32 <? Z.of_nat (length value)) eqn:Hfit; [done|].
  apply Z.ltb_ge in Hfit.
  replace (length value + 32 - 1)%nat with (length value + 31)%nat in Hrun by lia.
  assert (Z.of_nat ((length value + 31) / 32) <= 256 - s) as Hslots.
  { rewrite Nat2Z.inj_div, Nat2Z.inj_add. change (Z.of_nat 32) with 32 in *.
    change (Z.of_nat 31) with 31.
    apply Z.lt_succ_r. apply Z.div_lt_upper_bound; lia. }
  rewrite copy_into_exact in Hrun by done.
  apply rbind_ok in Hrun as (h1 & Hcount & Hrun).
  unfold InsertUInt256 in Hcount. apply insert_inv in Hcount as (_ & _ & ->).
  apply InsertBytes_loop_keys in Hrun as (HR & HK & es & HT & Hkeys).
  split; [done|]. split; [done|]. split; [|done].
  unfold new_entries. rewrite HT. cbn [push Temp].
  rewrite <- app_assoc, drop_app_length. cbn [app map Key]. f_equal.
  rewrite Hkeys. apply map_ext_in. intros i Hi%in_seq. unfold set_suffix, StemSize.
  f_equal. unfold byte_wrap. rewrite (Z.mod_small (Z.of_nat i)) by lia.
  rewrite Z.mod_small by lia. done.
Qed.

(** X25.  [InsertBytes] reads nothing of its key beyond the first 32
    bytes: on a key of at least 32 bytes it does what it does on the key
    cut to 32 bytes, where [insert] would panic on the key length; on a
    shorter key it panics on the index of the last key byte, before
    anything is staged. *)
Theorem InsertBytes_uses_first_32_bytes (h : Header) (key value spare : list Z) :
  ((32 <= length key)%nat ->
     InsertBytes h key value spare = InsertBytes h (take 32 key) value spare) /\
  ((length key < 32)%nat -> InsertBytes h key value spare = Panic IndexOutOfRange).
Proof.
  unfold InsertBytes, StemSize, KeySize. split.
  - intros Hk. rewrite lookup_take_lt by lia.
    rewrite copy_into_long by done.
    rewrite (copy_into_exact 32 (take 32 key)) by (rewrite length_take; lia). done.
  - intros Hk. rewrite (proj2 (lookup_ge_None key 31)) by lia. done.
Qed.

(** ** Tree and flat map in lockstep *)

Lemma page_elements_lockstep (kv : gmap (list Z) (list Z)) (es : list TripleElement) :
  fst (page_elements kv kv es) = snd (page_elements kv kv es).
Proof.
  revert kv. induction es as [|e es IH]; intros kv; [done|].
  rewrite page_elements_cons. apply IH.
Qed.

Section Reachable.
Context {env : Environment}.

(** X7.  In every header reached from an empty store by calls of [Exec]
    and [Paging], the flat map [KV] and the tree [Root] hold the same
    entries. *)
Theorem reachable_lockstep (paged pending : list OrdTransfer) (h : Header)
    (Hreach : reachable paged pending h) :
  KV h = Root h.
Proof.
  induction Hreach as [height hash|paged pending h batch h' _ IH Hrun
                       |paged pending h g q _ IH].
  - done.
  - rewrite Exec_unfold in Hrun. apply Exec_loop_staged in Hrun as (ws & HR & HK & _).
    by rewrite HR, HK.
  - destruct (Paging_fields h g q) as (-> & -> & _). rewrite IH.
    apply page_elements_lockstep.
Qed.

(** X8.  In every reachable header all committed keys and values, and all
    pending keys and new values, are 32 bytes long. *)
Theorem reachable_widths (paged pending : list OrdTransfer) (h : Header)
    (Hreach : reachable paged pending h) :
  (forall k v, Root h !! k = Some v -> length k = 32%nat /\ length v = 32%nat) /\
  (forall e, e ∈ Temp h -> length (Key e) = 32%nat /\ length (NewValue e) = 32%nat).
Proof.
  induction Hreach as [height hash|paged pending h batch h' _ [IHR IHT] Hrun
                       |paged pending h g q _ [IHR IHT]].
  - split.
    + intros k v H. unfold NewHeader in H. cbn [Root] in H.
      by rewrite lookup_empty in H.
    + intros e He. unfold NewHeader in He. cbn [Temp] in He.
      by apply elem_of_nil in He.
  - rewrite Exec_unfold in Hrun. apply Exec_loop_staged in Hrun as (ws & Hst).
    pose proof Hst as (HR & _ & _ & _ & _ & Hw).
    split; [rewrite HR; exact IHR|].
    intros e He. destruct (staged_temp_elem _ _ _ _ Hst He) as [Hold|Hnew]; [auto|].
    rewrite Forall_forall in Hw. apply (Hw _ Hnew).
  - split.
    + intros k v. rewrite Paging_Root_lookup. unfold paged_lookup.
      destruct (staged_value (Temp h) k) as [v'|] eqn:E.
      * intros [= <-]. apply staged_value_Some in E as (e & He & <- & <-). auto.
      * apply IHR.
    + destruct (Paging_fields h g q) as (_ & _ & -> & _).
      intros e He. by apply elem_of_nil in He.
Qed.

End Reachable.

(** * Further properties of the interpreter *)

(** ** [Exec] over any store *)

Section AnyStore.
Context {S : Type} {store : KVStorage S} {env : Environment}.

Lemma Exec_is_loop (s : S) (ts : list OrdTransfer) : Exec s ts = Exec_loop getLimit s ts.
Proof. by destruct ts. Qed.

Lemma Exec_loop_app (u : Z) (s : S) (ts1 ts2 : list OrdTransfer) :
  Exec_loop u s (ts1 ++ ts2) = rbind (Exec_loop u s ts1) (fun s1 => Exec_loop u s1 ts2).
Proof.
  revert s. induction ts1 as [|t ts1 IH]; intros s; [done|].
  cbn [app Exec_loop]. destruct (Exec_body u s t); [apply IH|apply IH|done].
Qed.

(** X9.  Handing [Exec] a batch in two parts, the second part on the
    state the first part leaves, is the same as handing it the whole
    batch; a panic in the first part is the panic of the whole. *)
Theorem Exec_app (s : S) (ts1 ts2 : list OrdTransfer) :
  Exec s (ts1 ++ ts2) = rbind (Exec s ts1) (fun s1 => Exec s1 ts2).
Proof.
  rewrite !Exec_is_loop, Exec_loop_app. destruct (Exec_loop getLimit s ts1); [|done].
  cbn [rbind]. by rewrite Exec_is_loop.
Qed.

Lemma Exec_cons_skip (s : S) (t : OrdTransfer) (ts : list OrdTransfer) :
  flow_result (Exec_body getLimit s t) = Ok s -> Exec s (t :: ts) = Exec s ts.
Proof.
  intros H. rewrite !Exec_is_loop. cbn [Exec_loop].
  destruct (Exec_body getLimit s t); cbn in H; by inversion H.
Qed.

(** X10.  A record is skipped, the batch going on with the state
    unchanged, when it is an inscription sent as fee, when its content type
    is empty or, once hex-decoded and cut at the first semicolon, is
    neither application/json nor text/plain, when its content has no
    "tick" or no "op" member, or when its tick in lower case is not 4 bytes
    long. *)
Theorem Exec_skips_invalid_record (s : S) (t : OrdTransfer) (ts : list OrdTransfer)
    (Hinvalid :
       (SentAsFee t = true /\ OldSatpoint t = ""%string) \/
       ContentType t = ""%string \/
       (let contentType :=
          before_semicolon
            (if snd (hex_DecodeString (ContentType t))
             then string_of_bytes (fst (hex_DecodeString (ContentType t)))
             else ContentType t) in
        contentType <> "application/json"%string /\ contentType <> "text/plain"%string) \/
       Unmarshal (Content t) !! "tick"%string = None \/
       Unmarshal (Content t) !! "op"%string = None \/
       (exists raw, Unmarshal (Content t) !! "tick"%string = Some raw /\
                    String.length (ToLower raw) <> 4%nat)) :
  Exec s (t :: ts) = Exec s ts.
Proof.
  apply Exec_cons_skip. unfold Exec_body.
  destruct (SentAsFee t && String.eqb (OldSatpoint t) "") eqn:Hfee; [done|].
  destruct (String.eqb (ContentType t) "") eqn:Hct; [done|].
  destruct (hex_DecodeString (ContentType t)) as [decoded ok] eqn:Hhex.
  cbn [fst snd] in Hinvalid.
  destruct (negb _ && negb _) eqn:Hmime; [done|].
  destruct (Unmarshal (Content t) !! "tick"%string) as [raw|] eqn:Htick; [|done].
  destruct (Unmarshal (Content t) !! "op"%string) as [op|] eqn:Hop; [|done].
  destruct (negb (String.length (ToLower raw) =? 4)%nat) eqn:Hlen; [done|].
  exfalso. destruct Hinvalid as [[Hf Ho]|[Hc|[[Hj Hp]|[Ht|[Ho|(raw' & Hr & Hl)]]]]].
  - rewrite Hf, Ho in Hfee. done.
  - rewrite Hc in Hct. done.
  - apply String.eqb_neq in Hj, Hp. rewrite Hj, Hp in Hmime. done.
  - done.
  - done.
  - inversion Hr; subst raw'. apply Nat.eqb_neq in Hl. rewrite Hl in Hlen. done.
Qed.

Lemma eqb_false_of_ne (a b : string) : a <> b -> String.eqb a b = false.
Proof. apply String.eqb_neq. Qed.

(** X11.  A record whose "op" is none of deploy, mint and transfer is
    skipped, and so is the movement (non-empty old satpoint) of a deploy or
    mint inscription: the batch goes on with the state unchanged. *)
Theorem Exec_ignores_other_ops (s : S) (t : OrdTransfer) (ts : list OrdTransfer)
    (op : string)
    (Hop : Unmarshal (Content t) !! "op"%string = Some op)
    (Hother :
       (op <> "deploy"%string /\ op <> "mint"%string /\ op <> "transfer"%string) \/
       ((op = "deploy"%string \/ op = "mint"%string) /\ OldSatpoint t <> ""%string)) :
  Exec s (t :: ts) = Exec s ts.
Proof.
  apply Exec_cons_skip. unfold Exec_body.
  destruct (SentAsFee t && String.eqb (OldSatpoint t) ""); [done|].
  destruct (String.eqb (ContentType t) ""); [done|].
  destruct (hex_DecodeString (ContentType t)) as [decoded ok].
  destruct (negb _ && negb _); [done|].
  destruct (Unmarshal (Content t) !! "tick"%string) as [raw|]; [|done].
  rewrite Hop.
  destruct (negb (String.length (ToLower raw) =? 4)%nat); [done|].
  unfold handle_deploy, handle_mint, handle_transfer, js_get. rewrite Hop. cbn [default].
  destruct Hother as [(Hd & Hm & Ht)|[[->| ->] Hold]].
  - rewrite !(eqb_false_of_ne op) by done. done.
  - rewrite (eqb_false_of_ne (OldSatpoint t)) by done. done.
  - rewrite (eqb_false_of_ne (OldSatpoint t)) by done. done.
Qed.

(** ** Keys *)

Lemma bytes_of_string_inj (s1 s2 : string) : bytes_of_string s1 = bytes_of_string s2 -> s1 = s2.
Proof.
  unfold bytes_of_string. intros H.
  rewrite <- (String.string_of_list_ascii_of_string s1),
          <- (String.string_of_list_ascii_of_string s2).
  f_equal. revert H. generalize (String.list_ascii_of_string s1).
  generalize (String.list_ascii_of_string s2).
  intros l2 l1. revert l2. induction l1 as [|c1 l1 IH]; intros [|c2 l2]; try done.
  cbn [map]. intros [= Hc Hl]. f_equal; [|by apply IH].
  apply N2Z.inj in Hc.
  rewrite <- (Ascii.ascii_N_embedding c1), <- (Ascii.ascii_N_embedding c2). by rewrite Hc.
Qed.

Lemma GetHash_key_inj (s1 s2 : Z) (u1 u2 t1 t2 : string) (k : list Z) :
  GetHash s1 u1 t1 = Ok k -> GetHash s2 u2 t2 = Ok k ->
  String.length t1 = String.length t2 ->
  s1 = s2 /\ t1 = t2.
Proof.
  intros H1 H2 Hlen.
  unfold GetHash, digest_prefix in H1, H2. rewrite <- Hlen in H2.
  destruct (negb _); [done|].
  assert (forall n, (n <= length (keccak224 u1))%nat -> (n <= length (keccak224 u2))%nat ->
            take n (keccak224 u1) ++ [s1] ++ bytes_of_string t1
            = take n (keccak224 u2) ++ [s2] ++ bytes_of_string t2 ->
            s1 = s2 /\ t1 = t2) as Hsame.
  { intros n Hn1 Hn2 Heq. apply app_inj_1 in Heq as [_ Heq]; [|rewrite !length_take; lia].
    inversion Heq. split; [done|]. by apply bytes_of_string_inj. }
  destruct (String.length t1 =? 4)%nat.
  - destruct (27 <=? length (keccak224 u1))%nat eqn:E1; [|done].
    destruct (27 <=? length (keccak224 u2))%nat eqn:E2; [|done].
    cbn [rbind] in H1, H2. do 2 (destruct (negb _); [done|]).
    apply Nat.leb_le in E1, E2. apply (Hsame 27%nat E1 E2). congruence.
  - destruct (26 <=? length (keccak224 u1))%nat eqn:E1; [|done].
    destruct (26 <=? length (keccak224 u2))%nat eqn:E2; [|done].
    cbn [rbind] in H1, H2. do 2 (destruct (negb _); [done|]).
    apply Nat.leb_le in E1, E2. apply (Hsame 26%nat E1 E2). congruence.
Qed.

(** X12.  Two state keys for ticks of the same length coincide exactly
    when they have the same state id, the same tick and the same leading
    bytes of the digest of the unique id (27 bytes less what the tick has
    beyond 4): entries of different kinds, or of different ticks of one
    length, never share a key. *)
Theorem GetHash_separates (s1 s2 : Z) (u1 u2 t1 t2 : string) (k1 k2 : list Z)
    (H1 : GetHash s1 u1 t1 = Ok k1) (H2 : GetHash s2 u2 t2 = Ok k2)
    (Hlen : String.length t1 = String.length t2) :
  k1 = k2 <->
  s1 = s2 /\ t1 = t2 /\
  take (31 - String.length t1) (keccak224 u1) = take (31 - String.length t1) (keccak224 u2).
Proof.
  assert (exists n, (n <= length (keccak224 u1))%nat /\ (n <= length (keccak224 u2))%nat /\
            (31 - String.length t1)%nat = n /\
            k1 = take n (keccak224 u1) ++ [s1] ++ bytes_of_string t1 /\
            k2 = take n (keccak224 u2) ++ [s2] ++ bytes_of_string t2) as (n & Hn1 & Hn2 & -> & -> & ->).
  { unfold GetHash, digest_prefix in H1, H2. rewrite <- Hlen in H2.
    destruct (negb _); [done|].
    destruct (String.length t1 =? 4)%nat eqn:E4.
    - apply Nat.eqb_eq in E4. exists 27%nat.
      destruct (27 <=? length (keccak224 u1))%nat eqn:E1; [|done].
      destruct (27 <=? length (keccak224 u2))%nat eqn:E2; [|done].
      cbn [rbind] in H1, H2.
      destruct (negb _) in H1; [done|]. destruct (negb _) in H2; [done|].
      apply Nat.leb_le in E1, E2. rewrite E4.
      repeat split; try done; congruence.
    - exists 26%nat.
      destruct (26 <=? length (keccak224 u1))%nat eqn:E1; [|done].
      destruct (26 <=? length (keccak224 u2))%nat eqn:E2; [|done].
      cbn [rbind] in H1, H2.
      destruct (negb _) eqn:L1 in H1; [done|]. destruct (negb _) in H2; [done|].
      apply negb_false_iff, Nat.eqb_eq in L1.
      rewrite !length_app, length_take, bytes_of_string_length in L1.
      apply Nat.leb_le in E1, E2. cbn [length] in L1.
      repeat split; try done; try congruence. lia. }
  split.
  - intros Heq. apply app_inj_1 in Heq as [Hpre Heq]; [|rewrite !length_take; lia].
    inversion Heq. split; [done|]. split; [by apply bytes_of_string_inj|done].
  - intros (-> & -> & ->). done.
Qed.

Section Digest.
Hypothesis digest_length : forall s, length (keccak224 s) = 28%nat.

(** X13.  With a digest of 28 bytes, [GetHash] gives for a tick of 4
    bytes the first 27 bytes of the digest of the unique id, the state id
    and the tick, for a tick of 5 bytes the first 26 bytes of the digest,
    the state id and the tick, and panics on any other tick; the key is 32
    bytes long, so the panic on the key length is never raised. *)
Theorem GetHash_layout (stateID : Z) (uniqueID tick : string) :
  GetHash stateID uniqueID tick =
    if (String.length tick =? 4)%nat
    then Ok (take 27 (keccak224 uniqueID) ++ [stateID] ++ bytes_of_string tick)
    else if (String.length tick =? 5)%nat
    then Ok (take 26 (keccak224 uniqueID) ++ [stateID] ++ bytes_of_string tick)
    else Panic TickLength.
Proof.
  unfold GetHash, digest_prefix. rewrite digest_length.
  destruct (String.length tick =? 4)%nat eqn:E4.
  - cbn [orb negb Nat.leb rbind].
    rewrite !length_app, length_take, digest_length, bytes_of_string_length.
    apply Nat.eqb_eq in E4. rewrite E4. done.
  - destruct (String.length tick =? 5)%nat eqn:E5; [|done].
    cbn [orb negb Nat.leb rbind].
    rewrite !length_app, length_take, digest_length, bytes_of_string_length.
    apply Nat.eqb_eq in E5. rewrite E5. done.
Qed.

End Digest.
End AnyStore.

(** ** [Exec] on the store [Header] *)

Section OnHeaderMore.
Context {env : Environment}.

(** X14.  A batch that [Exec] completes changes nothing but the pending
    log: tree, flat map, height and hash are as before, and the log has
    grown at its end by writes of 32-byte values at 32-byte keys. *)
Theorem Exec_only_stages (h h' : Header) (ts : list OrdTransfer)
    (Hrun : Exec h ts = Ok h') :
  Root h' = Root h /\ KV h' = KV h /\ Height h' = Height h /\ Hash h' = Hash h /\
  exists es, Temp h' = Temp h ++ es /\
    Forall (fun e => length (Key e) = 32%nat /\ length (NewValue e) = 32%nat) es.
Proof.
  rewrite Exec_unfold in Hrun.
  apply Exec_loop_staged in Hrun as (ws & HR & HK & HH & HB & (es & HT & Hes) & Hw).
  repeat (split; [done|]). exists es. split; [done|].
  subst ws. unfold writes_of in Hw. by rewrite Forall_map in Hw.
Qed.

Lemma op_of_js_get (js : gmap string string) (op : string) :
  js !! "op"%string = Some op -> js_get js "op" = op.
Proof. unfold js_get. by intros ->. Qed.

(** X15.  A deploy that [Exec] applies has passed every check: the tick
    had no committed exists entry, the decimals are at most 18, and max
    supply and limit per mint are not zero and at most the upper limit;
    what it stages is exists, remaining supply = max supply, max supply,
    limit per mint and decimals of the tick, in this order.  Any other
    deploy record leaves the header as it was. *)
Theorem deploy_stages_checked_values (h h' : Header) (t : OrdTransfer)
    (Hop : Unmarshal (Content t) !! "op"%string = Some "deploy"%string)
    (Hrun : Exec h [t] = Ok h') :
  h' = h \/
  exists raw k1 k2 k3 k4 k5 maxSupply decimals limitPerMint,
    Unmarshal (Content t) !! "tick"%string = Some raw /\
    OldSatpoint t = ""%string /\
    GetTickStatus (ToLower raw) = Ok (k1, k2, k3, k4, k5) /\
    length (default [] (Root h !! k1)) = 0%nat /\
    decimals <= 18 /\
    maxSupply <> 0 /\ maxSupply <= getLimit /\
    limitPerMint <> 0 /\ limitPerMint <= getLimit /\
    staged h h' [ (k1, convertIntToByte 0); (k2, convertIntToByte maxSupply);
                  (k3, convertIntToByte maxSupply);
                  (k4, convertIntToByte limitPerMint);
                  (k5, convertIntToByte decimals) ].
Proof.
  apply op_of_js_get in Hop.
  rewrite Exec_single in Hrun. apply Exec_body_applied in Hrun.
  destruct Hrun as [ | raw tick mx dc lm kex h' Hr Ht Hlen Hop' Hold Hex Hno Hd Hm1 Hm2 Hl1 Hl2 Hdo
                     | ? ? ? ? ? ? ? ? h' _ _ _ Hop' | ? ? ? ? ? ? ? ? h' _ _ _ Hop'
                     | ? ? ? ? ? ? h' _ _ _ Hop' ];
    try (rewrite Hop in Hop'; discriminate Hop').
  - by left.
  - right. subst tick.
    apply deployInscribe_staged in Hdo as (k1 & k2 & k3 & k4 & k5 & Hks & Hst).
    pose proof (GetTickStatus_inv _ _ _ _ _ _ Hks) as (Hk1 & _).
    rewrite Hex in Hk1. inversion Hk1; subst k1.
    exists raw, kex, k2, k3, k4, k5, mx, dc, lm. repeat (split; [done|]). done.
Qed.

(** X16.  A mint or transfer record on a tick whose exists entry is not
    committed is skipped: the batch goes on with the header unchanged. *)
Theorem undeployed_tick_is_ignored (h : Header) (t : OrdTransfer) (ts : list OrdTransfer)
    (raw : string) (kex : list Z)
    (Htick : Unmarshal (Content t) !! "tick"%string = Some raw)
    (Hkex : GetHash Exists "" (ToLower raw) = Ok kex)
    (Hfresh : Root h !! kex = None)
    (Hop : js_get (Unmarshal (Content t)) "op" <> "deploy"%string) :
  Exec h (t :: ts) = Exec h ts.
Proof.
  apply Exec_cons_skip. unfold Exec_body.
  destruct (SentAsFee t && String.eqb (OldSatpoint t) ""); [done|].
  destruct (String.eqb (ContentType t) ""); [done|].
  destruct (hex_DecodeString (ContentType t)) as [decoded ok].
  destruct (negb _ && negb _); [done|].
  rewrite Htick. destruct (Unmarshal (Content t) !! "op"%string) as [op|]; [|done].
  destruct (negb (String.length (ToLower raw) =? 4)%nat); [done|].
  rewrite handle_deploy_other by done. cbn [then_].
  destruct (GetTickStatus_ok _ _ Hkex) as (k2 & k3 & k4 & k5 & Hks).
  pose proof (GetTickStatus_inv _ _ _ _ _ _ Hks) as (_ & _ & _ & _ & Hk5).
  pose proof (GetHash_length _ _ _ _ Hkex) as Hl1.
  pose proof (GetHash_length _ _ _ _ Hk5) as Hl5.
  unfold handle_mint, handle_transfer.
  cbn [Insert Get GetValueOrZero Header_KVStorage].
  destruct (String.eqb (js_get (Unmarshal (Content t)) "op") "mint"
            && String.eqb (OldSatpoint t) "").
  - destruct (Unmarshal (Content t) !! "amt"%string); [|done].
    rewrite Hks. cbn [run]. rewrite get_ok by done. cbn [run]. rewrite Hfresh. done.
  - cbn [then_].
    destruct (String.eqb (js_get (Unmarshal (Content t)) "op") "transfer"); [|done].
    destruct (Unmarshal (Content t) !! "amt"%string); [|done].
    rewrite Hks. cbn [run]. rewrite !get_ok by done. cbn [run]. rewrite Hfresh. done.
Qed.



End OnHeaderMore.

Section Registry.
Context {env : Environment}.

Hypothesis state_keys_apart : forall stateID uniqueID tick key eventID id,
  GetHash stateID uniqueID tick = Ok key -> eventID ∈ event_ids ->
  key <> GetEventHash eventID id.

(** The registry entries of a tick a deploy writes and no other record
    does. *)
Lemma applied_spares_registry (u : Z) (h h' : Header) (t : OrdTransfer) (tick : string)
    (s : Z) (kex k : list Z) :
  applied u h t h' ->
  String.length tick = 4%nat ->
  GetHash Exists "" tick = Ok kex -> length (default [] (Root h !! kex)) <> 0%nat ->
  s ∈ [Exists; MaxSupply; LimitPerMint; Decimals] -> GetHash s "" tick = Ok k ->
  exists ws, staged h h' ws /\ k ∉ ws.*1.
Proof.
  intros Happ Hlen Hkex Hdeployed Hs Hk.
  assert (forall s' u' tick' k', GetHash s' u' tick' = Ok k' -> String.length tick' = 4%nat ->
            k' = k -> s' = s /\ tick' = tick) as Hsep.
  { intros s' u' tick' k' H' Hl' ->. eapply GetHash_key_inj; [exact H'|exact Hk|congruence]. }
  assert (forall e id, e ∈ event_ids -> GetEventHash e id <> k) as Hev.
  { intros e id He Heq. by apply (state_keys_apart _ _ _ _ e id Hk He). }
  assert (forall s', s' ∈ [AvailableBalancePkscript; AvailableBalance;
                           OverallBalancePkscript; OverallBalance; RemainingSupply] ->
            s' <> s) as Hbal.
  { intros s' Hs' ->. unfold AvailableBalancePkscript, AvailableBalance,
      OverallBalancePkscript, OverallBalance, RemainingSupply, Exists, MaxSupply,
      LimitPerMint, Decimals in *.
    rewrite !elem_of_cons in Hs. rewrite !elem_of_cons in Hs'.
    rewrite elem_of_nil in Hs. rewrite elem_of_nil in Hs'. lia. }
  destruct Happ as [ | raw tick' mx dc lm kex' h' Hr Ht Hlen' Hop Hold Hex Hno Hd Hm1 Hm2 Hl1 Hl2 Hdo
                     | raw tick' ams am kex' krs klim kdec h' Hr Ht Hlen' Hop Hold Hams Hex Hrs
                         Hlim Hdec Hno Ham Hu Hnz Hr0 Hle Hdo
                     | raw tick' ams am kex' kdec kap ab h' Hr Ht Hlen' Hop Hold Hams Hex Hdec
                         Hno Ham Hu Hnz Hkap Hab Hle Hdo
                     | raw tick' ams am kex' kdec h' Hr Ht Hlen' Hop Hold Hams Hex Hdec
                         Hno Ham Hu Hnz Hused Hdo ].
  - exists []. split; [apply staged_refl|]. apply not_elem_of_nil.
  - apply deployInscribe_staged in Hdo as (k1 & k2 & k3 & k4 & k5 & Hks & Hst).
    apply GetTickStatus_inv in Hks as (H1 & H2 & H3 & H4 & H5).
    eexists. split; [exact Hst|]. cbn [fmap list_fmap fst].
    rewrite !elem_of_cons, elem_of_nil.
    intros [E|[E|[E|[E|[E|[]]]]]]; symmetry in E;
      match goal with
      | Hi : GetHash _ "" tick' = Ok ?ki, E : ?ki = k |- _ =>
          destruct (Hsep _ _ _ _ Hi Hlen' E) as [_ Htk]
      end; rewrite Htk, Hkex in Hex; inversion Hex; subst kex'; done.
  - apply mintInscribe_staged in Hdo
      as (kap & kop & kaw & kow & krs' & a & o & r & Hkap & Hkop & Hkaw & Hkow & Hkrs & _ & _ & _ & Hst).
    eexists. split; [exact Hst|]. cbn [fmap list_fmap fst].
    rewrite !elem_of_cons, elem_of_nil.
    intros [E|[E|[E|[E|[E|[]]]]]]; symmetry in E;
      match goal with
      | Hi : GetHash ?si _ tick' = Ok ?ki, E : ?ki = k |- _ =>
          destruct (Hsep _ _ _ _ Hi Hlen' E) as [Hsi _];
          apply (Hbal si); [rewrite !elem_of_cons; auto 10|exact Hsi]
      end.
  - apply transferInscribe_staged in Hdo as (kaw & kap' & cnt & Hkaw & Hkap' & _ & Hst).
    eexists. split; [exact Hst|].
    rewrite !fmap_app, !elem_of_app. cbn [fmap list_fmap fst].
    rewrite !elem_of_cons, !elem_of_nil.
    intros [[E|[E|[]]]|[E|[E|[]]]].
    + symmetry in E. destruct (Hsep _ _ _ _ Hkaw Hlen' E) as [Hsi _].
      apply (Hbal AvailableBalance); [rewrite !elem_of_cons; auto 10|exact Hsi].
    + symmetry in E. destruct (Hsep _ _ _ _ Hkap' Hlen' E) as [Hsi _].
      apply (Hbal AvailableBalancePkscript); [rewrite !elem_of_cons; auto 10|exact Hsi].
    + apply source_writes_keys in E as [E|[E|E]]; symmetry in E;
        (eapply Hev; [|exact E]); unfold event_ids; rewrite !elem_of_cons; auto 10.
    + symmetry in E. eapply Hev; [|exact E]. unfold event_ids. rewrite !elem_of_cons. auto 10.
  - destruct (SentAsFee t).
    + apply transferTransferSpendToFee_staged in Hdo
        as (sa & sp & kaw & kap & last & cnt & _ & Hkaw & Hkap & _ & _ & Hst).
      eexists. split; [exact Hst|]. cbn [fmap list_fmap fst].
      rewrite !elem_of_cons, elem_of_nil.
      intros [E|[E|[E|[]]]]; symmetry in E.
      * destruct (Hsep _ _ _ _ Hkaw Hlen' E) as [Hsi _].
        apply (Hbal AvailableBalance); [rewrite !elem_of_cons; auto 10|exact Hsi].
      * destruct (Hsep _ _ _ _ Hkap Hlen' E) as [Hsi _].
        apply (Hbal AvailableBalancePkscript); [rewrite !elem_of_cons; auto 10|exact Hsi].
      * eapply Hev; [|exact E]. unfold event_ids. rewrite !elem_of_cons. auto 10.
    + apply transferTransferNormal_staged in Hdo
        as (sa & sp & kow & kop & saw & sow & sap & sop & ov & av & sov & cnt &
            _ & Hkow & Hkop & Hsaw & Hsow & Hsap & Hsop & _ & _ & _ & _ & Hst).
      eexists. split; [exact Hst|]. cbn [fmap list_fmap fst].
      rewrite !elem_of_cons, elem_of_nil.
      intros [E|[E|[E|[E|[E|[E|[E|[]]]]]]]]; symmetry in E;
        try (match goal with
             | Hi : GetHash ?si _ tick' = Ok ?ki, E : ?ki = k |- _ =>
                 destruct (Hsep _ _ _ _ Hi Hlen' E) as [Hsi _];
                 apply (Hbal si); [rewrite !elem_of_cons; auto 10|exact Hsi]
             end).
      eapply Hev; [|exact E]. unfold event_ids. rewrite !elem_of_cons. auto 10.
Qed.

Lemma Exec_loop_spares_registry (u : Z) (ts : list OrdTransfer) (h h' : Header)
    (tick : string) (s : Z) (kex k : list Z) :
  Exec_loop u h ts = Ok h' ->
  String.length tick = 4%nat ->
  GetHash Exists "" tick = Ok kex -> length (default [] (Root h !! kex)) <> 0%nat ->
  s ∈ [Exists; MaxSupply; LimitPerMint; Decimals] -> GetHash s "" tick = Ok k ->
  exists ws, staged h h' ws /\ k ∉ ws.*1.
Proof.
  intros Hrun Hlen Hkex Hdep Hs Hk. revert h Hrun Hdep.
  induction ts as [|t ts IH]; intros h Hrun Hdep.
  - inversion Hrun; subst. exists []. split; [apply staged_refl|]. apply not_elem_of_nil.
  - rewrite Exec_loop_cons in Hrun. apply rbind_ok in Hrun as (h1 & H1 & Hrun).
    apply Exec_body_applied in H1.
    destruct (applied_spares_registry _ _ _ _ _ _ _ _ H1 Hlen Hkex Hdep Hs Hk)
      as (ws1 & Hst1 & Hn1).
    pose proof Hst1 as (HR & _).
    destruct (IH h1 Hrun) as (ws2 & Hst2 & Hn2); [by rewrite HR|].
    exists (ws1 ++ ws2). split; [by eapply staged_trans|].
    rewrite fmap_app, elem_of_app. tauto.
Qed.

(** X19.  Once the exists entry of a 4-byte tick is committed, no batch
    writes its exists, max supply, limit per mint or decimals entry again:
    [Exec] stages nothing at these keys, so the value [Paging] will commit
    for them is the one pending or committed before the batch. *)
Theorem registry_is_written_once (h h' : Header) (ts : list OrdTransfer)
    (tick : string) (s : Z) (kex k v : list Z)
    (Hlen : String.length tick = 4%nat)
    (Hkex : GetHash Exists "" tick = Ok kex)
    (Hdeployed : Root h !! kex = Some v) (Hv : v <> [])
    (Hs : s ∈ [Exists; MaxSupply; LimitPerMint; Decimals])
    (Hk : GetHash s "" tick = Ok k)
    (Hrun : Exec h ts = Ok h') :
  (forall e, e ∈ new_entries h h' -> Key e <> k) /\ view h' k = view h k.
Proof.
  rewrite Exec_unfold in Hrun.
  destruct (Exec_loop_spares_registry _ _ _ _ tick s kex k Hrun Hlen Hkex) as (ws & Hst & Hn);
    [rewrite Hdeployed; destruct v; done|done|done|].
  split.
  - intros e He Hke. apply Hn.
    destruct Hst as (_ & _ & _ & _ & (es & HT & Hes) & _).
    unfold new_entries in He. rewrite HT, drop_app_length in He.
    subst ws. unfold writes_of. rewrite <- list_fmap_compose.
    apply list_elem_of_fmap. exists e. done.
  - rewrite (view_staged _ _ _ _ Hst). rewrite last_write_miss; [done|].
    intros k' Hk' ->. done.
Qed.

End Registry.

Section NoPanic.
Context {env : Environment}.
Hypothesis digest_length : forall s, length (keccak224 s) = 28%nat.

Lemma GetHash_total4 (stateID : Z) (uniqueID tick : string) :
  String.length tick = 4%nat ->
  exists k, GetHash stateID uniqueID tick = Ok k /\ length k = 32%nat.
Proof.
  intros Hlen. eexists. split; [by apply GetHash_ok|].
  rewrite !length_app, length_take, digest_length, bytes_of_string_length, Hlen. done.
Qed.

Lemma GetTickStatus_total4 (tick : string) :
  String.length tick = 4%nat ->
  exists k1 k2 k3 k4 k5, GetTickStatus tick = Ok (k1, k2, k3, k4, k5) /\
    length k1 = 32%nat /\ length k2 = 32%nat /\ length k3 = 32%nat /\
    length k4 = 32%nat /\ length k5 = 32%nat.
Proof.
  intros Hlen. unfold GetTickStatus.
  destruct (GetHash_total4 Exists "" tick Hlen) as (k1 & -> & ?).
  destruct (GetHash_total4 RemainingSupply "" tick Hlen) as (k2 & -> & ?).
  destruct (GetHash_total4 MaxSupply "" tick Hlen) as (k3 & -> & ?).
  destruct (GetHash_total4 LimitPerMint "" tick Hlen) as (k4 & -> & ?).
  destruct (GetHash_total4 Decimals "" tick Hlen) as (k5 & -> & ?).
  cbn [rbind]. by exists k1, k2, k3, k4, k5.
Qed.

Lemma deployInscribe_total (h : Header) (id pk addr tick : string) (mx dc lm : Z) :
  String.length tick = 4%nat ->
  exists h', deployInscribe h id pk addr tick mx dc lm = Ok h'.
Proof.
  intros Hlen. unfold deployInscribe.
  destruct (GetTickStatus_total4 tick Hlen) as (k1 & k2 & k3 & k4 & k5 & -> & ? & ? & ? & ? & ?).
  cbn [rbind Insert Header_KVStorage].
  repeat (rewrite insert_ok by (done || apply convertIntToByte_length); cbn [rbind]).
  eauto.
Qed.

Lemma mintInscribe_total (h : Header) (id pk addr tick : string) (amount : Z) :
  String.length tick = 4%nat ->
  exists h', mintInscribe h id pk addr tick amount = Ok h'.
Proof.
  intros Hlen. unfold mintInscribe. cbv zeta.
  destruct (GetHash_total4 AvailableBalancePkscript pk tick Hlen) as (kap & -> & ?).
  destruct (GetHash_total4 OverallBalancePkscript pk tick Hlen) as (kop & -> & ?).
  destruct (GetHash_total4 AvailableBalance
              (string_of_bytes (decodeBitcoinAddress addr)) tick Hlen) as (kaw & -> & ?).
  destruct (GetHash_total4 OverallBalance
              (string_of_bytes (decodeBitcoinAddress addr)) tick Hlen) as (kow & -> & ?).
  destruct (GetTickStatus_total4 tick Hlen) as (k1 & k2 & k3 & k4 & k5 & -> & ? & ? & ? & ? & ?).
  cbn [rbind Insert Get GetValueOrZero Header_KVStorage].
  destruct (GetUInt256_total h kap) as [a ->]; [done|].
  destruct (GetUInt256_total h kop) as [o ->]; [done|].
  cbn [rbind].
  repeat (rewrite insert_ok by (done || apply convertIntToByte_length); cbn [rbind]).
  rewrite get_ok by done. cbn [rbind].
  rewrite insert_ok by (done || apply convertIntToByte_length). eauto.
Qed.

Lemma handle_deploy_no_panic (u : Z) (h : Header) (t : OrdTransfer)
    (js : gmap string string) (tick : string) :
  String.length tick = 4%nat ->
  handle_deploy u h t js tick = Continue h \/ exists h1, handle_deploy u h t js tick = Next h1.
Proof.
  intros Hlen. unfold handle_deploy.
  destruct (_ && _); [|eauto].
  destruct (js !! "max"%string) as [maxSupplyValue|]; [|eauto].
  destruct (GetTickStatus_total4 tick Hlen) as (k1 & k2 & k3 & k4 & k5 & -> & ? & ? & ? & ? & ?).
  cbn [run Get Header_KVStorage]. rewrite get_ok by done. cbn [run].
  destruct (negb _); [eauto|].
  destruct (match js !! "dec"%string with Some _ => _ | None => _ end) as [decimals|]; [|eauto].
  destruct (18 <? decimals); [eauto|].
  destruct (negb _); [eauto|].
  destruct (getNumberExtendedTo18Decimals maxSupplyValue decimals false) as [maxSupply|];
    [|eauto].
  destruct (_ || _); [eauto|].
  destruct (match js !! "lim"%string with Some _ => _ | None => _ end) as [limitPerMint|];
    [|eauto].
  destruct (deployInscribe_total h (InscriptionID t) (NewPkscript t) (NewWallet t) tick
              maxSupply decimals limitPerMint Hlen) as [h1 ->].
  cbn [run]. eauto.
Qed.

Lemma handle_mint_no_panic (u : Z) (h : Header) (t : OrdTransfer)
    (js : gmap string string) (tick : string) :
  String.length tick = 4%nat ->
  handle_mint u h t js tick = Continue h \/ exists h1, handle_mint u h t js tick = Next h1.
Proof.
  intros Hlen. unfold handle_mint.
  destruct (_ && _); [|eauto].
  destruct (js !! "amt"%string) as [amountString|]; [|eauto].
  destruct (GetTickStatus_total4 tick Hlen) as (k1 & k2 & k3 & k4 & k5 & -> & ? & ? & ? & ? & ?).
  cbn [run Get Header_KVStorage]. rewrite !get_ok by done. cbn [run].
  destruct (_ =? 0)%nat; [eauto|].
  destruct (negb _); [eauto|].
  destruct (getNumberExtendedTo18Decimals _ _ _) as [amount|]; [|eauto].
  destruct (_ || _); [eauto|].
  destruct (_ =? 0); [eauto|].
  destruct (_ <? amount); [eauto|].
  match goal with
  | |- context [mintInscribe h ?a ?b ?c ?d ?e] =>
      destruct (mintInscribe_total h a b c d e Hlen) as [h1 ->]
  end.
  cbn [run]. eauto.
Qed.

Lemma Exec_body_no_panic (u : Z) (h : Header) (t : OrdTransfer) :
  js_get (Unmarshal (Content t)) "op" <> "transfer"%string ->
  exists h1, flow_result (Exec_body u h t) = Ok h1.
Proof.
  intros Hop. unfold Exec_body.
  destruct (SentAsFee t && String.eqb (OldSatpoint t) ""); [by eexists|].
  destruct (String.eqb (ContentType t) ""); [by eexists|].
  destruct (hex_DecodeString (ContentType t)) as [decoded ok].
  destruct (negb _ && negb _); [by eexists|].
  destruct (Unmarshal (Content t) !! "tick"%string) as [raw|]; [|by eexists].
  destruct (Unmarshal (Content t) !! "op"%string) as [op|]; [|by eexists].
  destruct (negb (String.length (ToLower raw) =? 4)%nat) eqn:Hlen; [by eexists|].
  apply negb_false_iff, Nat.eqb_eq in Hlen.
  destruct (handle_deploy_no_panic u h t (Unmarshal (Content t)) (ToLower raw) Hlen)
    as [-> | [h1 ->]]; [by eexists|].
  cbn [then_].
  destruct (handle_mint_no_panic u h1 t (Unmarshal (Content t)) (ToLower raw) Hlen)
    as [-> | [h2 ->]]; [by eexists|].
  cbn [then_]. rewrite handle_transfer_other by done. by eexists.
Qed.

(** X20.  With a digest of 28 bytes, a batch without transfer records
    (deploys, mints, records of any other or of no operation) never
    panics: [Exec] completes on every header. *)
Theorem Exec_completes_without_transfers (h : Header) (ts : list OrdTransfer)
    (Hops : forall t, t ∈ ts -> js_get (Unmarshal (Content t)) "op" <> "transfer"%string) :
  exists h', Exec h ts = Ok h'.
Proof.
  rewrite Exec_unfold. revert h. induction ts as [|t ts IH]; intros h.
  - by eexists.
  - rewrite Exec_loop_cons.
    destruct (Exec_body_no_panic getLimit h t) as [h1 ->].
    { apply Hops. by left. }
    cbn [rbind]. apply IH. intros t' Ht'. apply Hops. by right.
Qed.

End NoPanic.

(** ** The source record of a transfer inscription *)

Lemma string_of_bytes_app (l1 l2 : list Z) :
  string_of_bytes (l1 ++ l2) = (string_of_bytes l1 +:+ string_of_bytes l2)%string.
Proof.
  unfold string_of_bytes. induction l1 as [|b l1 IH]; [done|].
  simpl. by rewrite IH.
Qed.

Lemma string_of_bytes_of_string (s : string) : string_of_bytes (bytes_of_string s) = s.
Proof.
  unfold string_of_bytes, bytes_of_string. induction s as [|c s IH]; [done|].
  cbn [String.list_ascii_of_string map String.string_of_list_ascii].
  rewrite N2Z.id, Ascii.ascii_N_embedding. by rewrite IH.
Qed.

Lemma bytes_of_string_app (s1 s2 : string) :
  bytes_of_string (s1 +:+ s2) = bytes_of_string s1 ++ bytes_of_string s2.
Proof.
  unfold bytes_of_string. induction s1 as [|c s1 IH]; [done|].
  simpl. by rewrite IH.
Qed.

Lemma substring_string_of_bytes (n : nat) (l : list Z) :
  String.substring 0 n (string_of_bytes l) = string_of_bytes (take n l).
Proof.
  unfold string_of_bytes. revert n. induction l as [|b l IH]; intros [|n]; try done.
  cbn [map String.string_of_list_ascii String.substring take]. by rewrite IH.
Qed.

Lemma string_of_bytes_length (l : list Z) : String.length (string_of_bytes l) = length l.
Proof.
  unfold string_of_bytes. induction l as [|b l IH]; [done|].
  cbn [map String.string_of_list_ascii String.length length]. by rewrite IH.
Qed.

(** Decoding a string of lower-case hex digits of even length and encoding
    the bytes gives the digits back. *)
Lemma hex_Decode_lower (n : nat) (l : list Z) :
  length l = (2 * n)%nat ->
  Forall (fun c => 48 <= c <= 57 \/ 97 <= c <= 102) l ->
  flat_map (fun b => [hexDigit (b / 16); hexDigit (b mod 16)]) (fst (hex_Decode l)) = l /\
  length (fst (hex_Decode l)) = n.
Proof.
  revert l. induction n as [|n IH]; intros l Hlen Hhex.
  - destruct l; [done|discriminate Hlen].
  - destruct l as [|p [|q rest]]; [discriminate Hlen|cbn in Hlen; lia|].
    inversion Hhex as [|? ? Hp Hhex']; subst. inversion Hhex' as [|? ? Hq Hrest]; subst.
    destruct (IH rest) as [IH1 IH2]; [cbn in Hlen; lia|done|].
    assert (forall c, 48 <= c <= 57 \/ 97 <= c <= 102 ->
              exists a, fromHexChar c = Some a /\ 0 <= a < 16 /\ hexDigit a = c) as Hdigit.
    { intros c Hc. unfold fromHexChar, hexDigit.
      destruct Hc as [Hc|Hc].
      - exists (c - 48). replace ((48 <=? c) && (c <=? 57)) with true by (symmetry; apply andb_true_iff; lia).
        replace (c - 48 <? 10) with true by (symmetry; apply Z.ltb_lt; lia).
        repeat split; lia.
      - exists (c - 87).
        replace ((48 <=? c) && (c <=? 57)) with false by (symmetry; apply andb_false_iff; lia).
        replace ((97 <=? c) && (c <=? 102)) with true by (symmetry; apply andb_true_iff; lia).
        replace (c - 87 <? 10) with false by (symmetry; apply Z.ltb_ge; lia).
        repeat split; lia. }
    destruct (Hdigit p Hp) as (a & Ha & Har & Hda).
    destruct (Hdigit q Hq) as (b & Hb & Hbr & Hdb).
    cbn [hex_Decode]. rewrite Ha, Hb.
    destruct (hex_Decode rest) as [out ok]. cbn [fst] in *.
    cbn [flat_map length app]. rewrite IH1, IH2. split; [|done].
    replace ((a * 16 + b) / 16) with a by (apply Z.div_unique with b; lia).
    replace ((a * 16 + b) mod 16) with b by (apply Z.mod_unique with a; lia).
    by rewrite Hda, Hdb.
Qed.

Section SourceRecord.
Context {env : Environment}.

(** [padTo32Bytes] fills a slice of at most 32 bytes with zero bytes at
    its end. *)
Hypothesis pad_right : forall l, (length l <= 32)%nat ->
  padTo32Bytes l = l ++ replicate (32 - length l) 0.

Lemma encodedPkscript_shape (pk : string) :
  Forall (fun c => 48 <= c <= 57 \/ 97 <= c <= 102) (bytes_of_string pk) ->
  (String.length pk <= 126)%nat ->
  exists dec,
    encodedPkscript pk = Z.of_nat (String.length pk) :: dec /\
    (length dec <= 63)%nat /\
    (String.length pk <= 62 -> length dec <= 31)%nat /\
    forall rest, exists tail,
      flat_map (fun b => [hexDigit (b / 16); hexDigit (b mod 16)]) (dec ++ rest)
      = bytes_of_string pk ++ tail.
Proof.
  intros Hhex Hlen. unfold encodedPkscript, hex_DecodeString.
  assert (byte_wrap (Z.of_nat (String.length pk)) = Z.of_nat (String.length pk)) as ->
    by (unfold byte_wrap; apply Z.mod_small; lia).
  destruct (String.length pk mod 2 =? 1)%nat eqn:Hodd.
  - apply Nat.eqb_eq in Hodd.
    destruct (hex_Decode_lower (S (String.length pk / 2)) (bytes_of_string (pk +:+ "0")))
      as [Hrt Hl].
    { rewrite bytes_of_string_app, length_app, bytes_of_string_length.
      change (length (bytes_of_string "0")) with 1%nat.
      pose proof (Nat.div_mod_eq (String.length pk) 2). lia. }
    { rewrite bytes_of_string_app. apply Forall_app. split; [done|].
      change (bytes_of_string "0") with [48]. apply Forall_singleton. lia. }
    eexists. split; [reflexivity|]. rewrite Hl.
    pose proof (Nat.div_mod_eq (String.length pk) 2).
    split; [lia|]. split; [lia|].
    intros rest. rewrite flat_map_app, Hrt, bytes_of_string_app, <- app_assoc. eauto.
  - apply Nat.eqb_neq in Hodd.
    pose proof (Nat.mod_upper_bound (String.length pk) 2).
    pose proof (Nat.div_mod_eq (String.length pk) 2).
    destruct (hex_Decode_lower (String.length pk / 2) (bytes_of_string pk)) as [Hrt Hl].
    { rewrite bytes_of_string_length. lia. }
    { done. }
    eexists. split; [reflexivity|]. rewrite Hl.
    split; [lia|]. split; [lia|].
    intros rest. rewrite flat_map_app, Hrt. eauto.
Qed.

Ltac decide_keys :=
  repeat match goal with
  | |- context [decide (?a = ?b)] =>
      first [ rewrite (decide_True (P := a = b)) by done
            | rewrite (decide_False (P := a = b)) by done ]
  end.

Lemma event_key_ne (e1 e2 : list Z) (id : string) :
  length e1 = length e2 -> e1 <> e2 -> GetEventHash e1 id <> GetEventHash e2 id.
Proof. intros Hl Hne Heq. by apply GetEventHash_inj in Heq as [? _]. Qed.

(** X21.  With [padTo32Bytes] filling with zeros at the end: once
    [saveSourceWalletAndPkscript] has recorded a wallet and a pkscript of
    at most 126 lower-case hex digits for an inscription, and [Paging] has
    committed the record, [getSourceWalletAndPkscript] gives back that
    wallet and that pkscript, whether its length is even or odd and
    whatever an earlier record left in the second pkscript slot. *)
Theorem source_record_round_trip {E} (h h1 : Header) (id addr pk : string)
    (g : Z -> string + E) (q : bool)
    (Hhex : Forall (fun c => 48 <= c <= 57 \/ 97 <= c <= 102) (bytes_of_string pk))
    (Hlen : (String.length pk <= 126)%nat)
    (Hsave : saveSourceWalletAndPkscript h id addr pk = Ok h1) :
  getSourceWalletAndPkscript (fst (Paging h1 g q)) id = Ok (addr, pk).
Proof.
  apply saveSourceWalletAndPkscript_staged in Hsave as Hst.
  assert (forall k, Root (fst (Paging h1 g q)) !! k
                    = match last_write (source_writes id addr pk) k with
                      | Some v => Some v
                      | None => view h k
                      end) as Hlook.
  { intros k. rewrite Paging_Root_lookup. apply (view_staged _ _ _ _ Hst). }
  pose proof Hst as (_ & _ & _ & _ & _ & Hw).
  unfold source_writes in Hw, Hlook.
  apply Forall_app in Hw as [Hw _].
  apply Forall_cons in Hw as [[Hk0 _] Hw]. apply Forall_cons in Hw as [[Hk1 _] _].
  cbn [fst] in Hk0, Hk1.
  assert (length (GetEventHash TransferInscribeSourcePkscript2 id) = 32%nat) as Hk2.
  { unfold GetEventHash in *. rewrite length_app in *. exact Hk1. }
  assert (GetEventHash TransferInscribeSourcePkscript1 id
          <> GetEventHash TransferInscribeSourceWallet id) as N10
    by (by apply event_key_ne).
  assert (GetEventHash TransferInscribeSourcePkscript2 id
          <> GetEventHash TransferInscribeSourceWallet id) as N20
    by (by apply event_key_ne).
  assert (GetEventHash TransferInscribeSourceWallet id
          <> GetEventHash TransferInscribeSourcePkscript1 id) as N01
    by (by apply event_key_ne).
  assert (GetEventHash TransferInscribeSourcePkscript2 id
          <> GetEventHash TransferInscribeSourcePkscript1 id) as N21
    by (by apply event_key_ne).
  assert (GetEventHash TransferInscribeSourceWallet id
          <> GetEventHash TransferInscribeSourcePkscript2 id) as N02
    by (by apply event_key_ne).
  assert (GetEventHash TransferInscribeSourcePkscript1 id
          <> GetEventHash TransferInscribeSourcePkscript2 id) as N12
    by (by apply event_key_ne).
  destruct (encodedPkscript_shape pk Hhex Hlen) as (dec & Henc & Hdec & Hshort & Htail).
  assert (exists rest,
            default [] (Root (fst (Paging h1 g q))
                          !! GetEventHash TransferInscribeSourcePkscript1 id)
            ++ default [] (Root (fst (Paging h1 g q))
                             !! GetEventHash TransferInscribeSourcePkscript2 id)
            = Z.of_nat (String.length pk) :: dec ++ rest /\
            Root (fst (Paging h1 g q)) !! GetEventHash TransferInscribeSourceWallet id
            = Some (bytes_of_string addr)) as (rest & Hb & Hwallet).
  { rewrite !Hlook. rewrite Henc. cbn [length].
    destruct (32 <? S (length dec))%nat eqn:Hlong.
    - apply Nat.ltb_lt in Hlong. cbn [app last_write].
      decide_keys. cbn [default from_option Datatypes.id].
      replace (S (length dec) `min` 32)%nat with 32%nat by lia.
      rewrite !pad_right by (rewrite ?length_take, ?length_drop; cbn [length]; lia).
      rewrite length_take. cbn [length].
      replace (32 `min` S (length dec))%nat with 32%nat by lia.
      rewrite Nat.sub_diag. cbn [replicate]. rewrite app_nil_r.
      eexists. split; [|done].
      rewrite app_assoc, take_drop. reflexivity.
    - apply Nat.ltb_ge in Hlong. cbn [app last_write].
      decide_keys. cbn [default from_option Datatypes.id].
      replace (S (length dec) `min` 32)%nat with (S (length dec)) by lia.
      rewrite firstn_all2 by (cbn [length]; lia).
      rewrite pad_right by (cbn [length]; lia).
      eexists. split; [|done].
      rewrite <- !app_assoc. cbn [app]. reflexivity. }
  unfold getSourceWalletAndPkscript. cbn [Get Header_KVStorage].
  rewrite !get_ok by done. cbn [rbind]. rewrite Hb, Hwallet.
  destruct (Htail rest) as [tail Hrt].
  unfold hex_EncodeToString, string_prefix. rewrite Hrt, Nat2Z.id.
  rewrite string_of_bytes_length, length_app, bytes_of_string_length.
  replace (String.length pk <=? String.length pk + length tail)%nat with true
    by (symmetry; apply Nat.leb_le; lia).
  cbn [rbind default from_option]. rewrite substring_string_of_bytes.
  rewrite take_app_le by (rewrite bytes_of_string_length; lia).
  rewrite take_ge by (rewrite bytes_of_string_length; lia).
  unfold Datatypes.id. by rewrite !string_of_bytes_of_string.
Qed.

End SourceRecord.

(** ** Snapshots *)

Lemma rebuild_tree (kv : gmap (list Z) (list Z)) :
  map_fold (fun k v (root : gmap (list Z) (list Z)) => <[k := v]> root) ∅ kv = kv.
Proof.
  induction kv as [|k v kv Hk Hfold IH] using map_first_key_ind; [apply map_fold_empty|].
  rewrite map_fold_insert_first_key by done. by rewrite IH.
Qed.

(** X22.  With a decoder that gives back the map the encoder was given,
    [Deserialize] of the snapshot [Serialize] made of a header succeeds
    and yields a header whose flat map and whose tree are the flat map of
    the header, at the height asked for; the pending log and the block
    hash of the header are not carried over. *)
Theorem Deserialize_Serialize {B : Type} {codec : Gob B} (h : Header) (buffer : B)
    (height : Z)
    (Hcodec : forall kv b, gob_Encode kv = Some b -> gob_Decode b = Some kv)
    (Hser : Serialize h = Some buffer) :
  exists h', Deserialize buffer height = Some h' /\
    KV h' = KV h /\ Root h' = KV h /\ Temp h' = [] /\
    Height h' = height /\ Hash h' = ""%string.
Proof.
  unfold Serialize in Hser. unfold Deserialize. rewrite (Hcodec _ _ Hser).
  eexists. split; [reflexivity|]. cbn [KV Root Temp Height Hash].
  by rewrite rebuild_tree.
Qed.

Section MoreKeys.
Context {env : Environment}.

(** X23.  Two event keys that coincide, for event ids of 4 bytes, have
    the same event id and inscription ids of the same digest; with a
    digest of 28 bytes an event key is 32 bytes long. *)
Theorem GetEventHash_separates (e1 e2 : list Z) (id1 id2 : string)
    (Hdigest : forall s, length (keccak224 s) = 28%nat)
    (H1 : length e1 = 4%nat) (H2 : length e2 = 4%nat)
    (Heq : GetEventHash e1 id1 = GetEventHash e2 id2) :
  e1 = e2 /\ keccak224 id1 = keccak224 id2 /\ length (GetEventHash e1 id1) = 32%nat.
Proof.
  unfold GetEventHash in *. apply app_inj_1 in Heq as [-> ->]; [|congruence].
  repeat split. rewrite length_app, Hdigest, H2. done.
Qed.

(** X24.  A deploy that names neither decimals nor a limit, on a tick
    without committed exists entry and with a max supply that parses at 18
    decimals to a number that is not zero and at most the upper limit, is
    applied: it stages exists, remaining supply = max supply, max supply,
    limit per mint = max supply and decimals = 18. *)
Theorem deploy_defaults (h : Header) (t : OrdTransfer) (raw maxSupplyValue : string)
    (maxSupply : Z) (k1 k2 k3 k4 k5 : list Z)
    (Hfee : SentAsFee t = false)
    (Hold : OldSatpoint t = ""%string)
    (Hct : ContentType t = "application/json"%string \/ ContentType t = "text/plain"%string)
    (Htick : Unmarshal (Content t) !! "tick"%string = Some raw)
    (Hlen : String.length (ToLower raw) = 4%nat)
    (Hop : Unmarshal (Content t) !! "op"%string = Some "deploy"%string)
    (Hmax : Unmarshal (Content t) !! "max"%string = Some maxSupplyValue)
    (Hdec : Unmarshal (Content t) !! "dec"%string = None)
    (Hlim : Unmarshal (Content t) !! "lim"%string = None)
    (Hkeys : GetTickStatus (ToLower raw) = Ok (k1, k2, k3, k4, k5))
    (Hfresh : Root h !! k1 = None)
    (Hpos : isPositiveNumberWithDot maxSupplyValue false = true)
    (Hnum : getNumberExtendedTo18Decimals maxSupplyValue 18 false = Some maxSupply)
    (Hrange : maxSupply <> 0 /\ maxSupply <= getLimit) :
  exists h', Exec h [t] = Ok h' /\
    staged h h' [ (k1, convertIntToByte 0); (k2, convertIntToByte maxSupply);
                  (k3, convertIntToByte maxSupply); (k4, convertIntToByte maxSupply);
                  (k5, convertIntToByte 18) ].
Proof.
  pose proof (GetTickStatus_inv _ _ _ _ _ _ Hkeys) as (G1 & G2 & G3 & G4 & G5).
  apply GetHash_length in G1, G2, G3, G4, G5.
  assert (deployInscribe h (InscriptionID t) (NewPkscript t) (NewWallet t) (ToLower raw)
            maxSupply 18 maxSupply
          = Ok (push (push (push (push (push h k1 (convertIntToByte 0))
                                   k2 (convertIntToByte maxSupply))
                             k3 (convertIntToByte maxSupply))
                       k4 (convertIntToByte maxSupply))
                  k5 (convertIntToByte 18))) as Hdo.
  { unfold deployInscribe. rewrite Hkeys. cbn [rbind Insert Header_KVStorage].
    repeat (rewrite insert_ok by (done || apply convertIntToByte_length); cbn [rbind]).
    done. }
  eexists. split.
  - rewrite Exec_single. unfold Exec_body. rewrite Hfee, Hold. cbn [andb].
    assert (String.eqb (ContentType t) "" = false) as ->
      by (destruct Hct as [-> | ->]; reflexivity).
    assert ((let '(decodedBytes, ok) := hex_DecodeString (ContentType t) in
             if ok then string_of_bytes decodedBytes else ContentType t) = ContentType t) as ->
      by (destruct Hct as [-> | ->]; reflexivity).
    assert (negb (String.eqb (before_semicolon (ContentType t)) "application/json")
            && negb (String.eqb (before_semicolon (ContentType t)) "text/plain") = false) as ->
      by (destruct Hct as [-> | ->]; reflexivity).
    rewrite Htick, Hop, Hlen. cbn [Nat.eqb negb].
    unfold handle_deploy, js_get. rewrite Hop, Hold, Hmax, Hkeys.
    cbn [default String.eqb Ascii.eqb Bool.eqb andb run Get Header_KVStorage].
    rewrite get_ok by done. cbn [run]. rewrite Hfresh. cbn [default length Nat.eqb negb].
    rewrite Hdec. cbn [Z.ltb Z.compare Pos.compare Pos.compare_cont].
    rewrite Hpos. cbn [negb]. rewrite Hnum, Hlim.
    replace ((getLimit <? maxSupply) || (maxSupply =? 0)) with false
      by (symmetry; apply orb_false_iff; split; [apply Z.ltb_ge|apply Z.eqb_neq]; lia).
    rewrite Hdo. cbn [run then_].
    unfold handle_mint, handle_transfer, js_get. rewrite Hop. reflexivity.
  - repeat (apply staged_cons; [done|apply convertIntToByte_length|]). apply staged_refl.
Qed.

End MoreKeys.

(** * The further properties on the scenarios *)

Lemma uint256_round_trip_witness :
  exists h1, InsertUInt256 Scenario.pending Scenario.key0 77 = Ok h1 /\
    GetUInt256 h1 Scenario.key0 = GetUInt256 Scenario.pending Scenario.key0 /\
    GetUInt256 (fst (Paging h1 Standin.getter_ok true)) Scenario.key0 = Ok 77.
Proof.
  apply (uint256_round_trip Scenario.pending Scenario.key0 77 Standin.getter_ok true);
    [reflexivity|lia].
Defined.

Lemma absent_key_reads_empty_witness :
  get Scenario.h0 Scenario.key0 = Ok None /\
  GetUInt256 Scenario.h0 Scenario.key0 = Ok 0 /\
  GetBytes Scenario.h0 Scenario.key0 = Ok [].
Proof. apply absent_key_reads_empty; reflexivity. Defined.

Lemma GetBytes_uses_first_32_bytes_witness :
  exists v, GetBytes Scenario.stored_paged (Scenario.key0 ++ [7; 7]) = Ok v /\
            GetBytes Scenario.stored_paged (take 32 (Scenario.key0 ++ [7; 7])) = Ok v.
Proof. apply GetBytes_uses_first_32_bytes. vm_compute. lia. Defined.

Lemma InsertBytes_writes_within_stem_witness :
  Root Scenario.stored = Root Scenario.h0 /\ KV Scenario.stored = KV Scenario.h0 /\
  map Key (new_entries Scenario.h0 Scenario.stored)
    = Scenario.key0
      :: map (fun i => <[31%nat := 0 + Z.of_nat i]> Scenario.key0)
             (seq 0 ((length Scenario.blob64 + 31) / 32)) /\
  Z.of_nat ((length Scenario.blob64 + 31) / 32) <= 256 - 0.
Proof.
  apply (InsertBytes_writes_within_stem Scenario.h0 Scenario.stored Scenario.key0
           Scenario.blob64 [] 0); [reflexivity|reflexivity|lia|vm_compute; reflexivity].
Defined.

Lemma reachable_lockstep_witness : KV Scenario.spentX = Root Scenario.spentX.
Proof. exact (reachable_lockstep _ _ _ spentX_reachable). Defined.

Lemma reachable_widths_witness :
  (forall k v, Root Scenario.inscribedX !! k = Some v ->
               length k = 32%nat /\ length v = 32%nat) /\
  (forall e, e ∈ Temp Scenario.inscribedX ->
             length (Key e) = 32%nat /\ length (NewValue e) = 32%nat).
Proof. exact (reachable_widths _ _ _ inscribedX_reachable). Defined.

Lemma Exec_skips_invalid_record_witness :
  Exec (env := Standin.environment) Scenario.h0
    (Standin.record "f0" "" "aa" "walletA" true (Standin.json "deploy" "test" "max" "5")
     :: [Scenario.deploy1000])
  = Exec (env := Standin.environment) Scenario.h0 [Scenario.deploy1000].
Proof.
  apply (Exec_skips_invalid_record (env := Standin.environment)).
  left. split; reflexivity.
Defined.

Lemma Exec_ignores_other_ops_witness :
  Exec (env := Standin.environment) Scenario.deployed
    (Standin.record "b0" "" "aa" "walletA" false (Standin.json "burn" "test" "amt" "5")
     :: [Scenario.mint500])
  = Exec (env := Standin.environment) Scenario.deployed [Scenario.mint500].
Proof.
  apply (Exec_ignores_other_ops (env := Standin.environment) _ _ _ "burn").
  - vm_compute. reflexivity.
  - left. repeat split; discriminate.
Defined.

Lemma GetHash_separates_witness :
  Scenario.key_of Exists "aaaaaaaaaaaaaaaaaaaaaaaaaaaaaX"
  = Scenario.key_of Exists "aaaaaaaaaaaaaaaaaaaaaaaaaaaaaY" <->
  Exists = Exists /\ "test"%string = "test"%string /\
  take (31 - String.length "test")
    (keccak224 (Environment := Standin.environment) "aaaaaaaaaaaaaaaaaaaaaaaaaaaaaX")
  = take (31 - String.length "test")
      (keccak224 (Environment := Standin.environment) "aaaaaaaaaaaaaaaaaaaaaaaaaaaaaY").
Proof.
  apply (GetHash_separates (env := Standin.environment) Exists Exists
           "aaaaaaaaaaaaaaaaaaaaaaaaaaaaaX" "aaaaaaaaaaaaaaaaaaaaaaaaaaaaaY" "test" "test");
    [vm_compute; reflexivity|vm_compute; reflexivity|reflexivity].
Defined.

Lemma GetHash_layout_witness :
  GetHash (env := Standin.environment) MaxSupply "" "tests"
  = Ok (take 26 (keccak224 (Environment := Standin.environment) "")
        ++ [MaxSupply] ++ bytes_of_string "tests").
Proof.
  exact (GetHash_layout (env := Standin.environment) standin_digest_length
           MaxSupply "" "tests").
Defined.

Lemma Exec_only_stages_witness :
  let h := Scenario.deployed in
  let h' := Scenario.header_of (Exec (env := Standin.environment) h [Scenario.mint500]) in
  Root h' = Root h /\ KV h' = KV h /\ Height h' = Height h /\ Hash h' = Hash h /\
  exists es, Temp h' = Temp h ++ es /\
    Forall (fun e => length (Key e) = 32%nat /\ length (NewValue e) = 32%nat) es.
Proof.
  cbv zeta. apply (Exec_only_stages (env := Standin.environment) _ _ [Scenario.mint500]).
  vm_compute. reflexivity.
Defined.

Lemma deploy_stages_checked_values_witness :
  Scenario.deploy_staged = Scenario.h0 \/
  exists raw k1 k2 k3 k4 k5 maxSupply decimals limitPerMint,
    Unmarshal (Environment := Standin.environment) (Content Scenario.deploy1000)
      !! "tick"%string = Some raw /\
    OldSatpoint Scenario.deploy1000 = ""%string /\
    GetTickStatus (env := Standin.environment)
      (ToLower (Environment := Standin.environment) raw) = Ok (k1, k2, k3, k4, k5) /\
    length (default [] (Root Scenario.h0 !! k1)) = 0%nat /\
    decimals <= 18 /\
    maxSupply <> 0 /\ maxSupply <= Standin.upper_limit /\
    limitPerMint <> 0 /\ limitPerMint <= Standin.upper_limit /\
    staged Scenario.h0 Scenario.deploy_staged
      [ (k1, convertIntToByte 0); (k2, convertIntToByte maxSupply);
        (k3, convertIntToByte maxSupply); (k4, convertIntToByte limitPerMint);
        (k5, convertIntToByte decimals) ].
Proof.
  apply (deploy_stages_checked_values (env := Standin.environment)).
  - vm_compute. reflexivity.
  - vm_compute. reflexivity.
Defined.

Lemma undeployed_tick_is_ignored_witness :
  Exec (env := Standin.environment) Scenario.h0 (Scenario.mint500 :: [Scenario.insX300])
  = Exec (env := Standin.environment) Scenario.h0 [Scenario.insX300].
Proof.
  apply (undeployed_tick_is_ignored (env := Standin.environment) _ _ _ "test"
           (Scenario.key_of Exists "")).
  - vm_compute. reflexivity.
  - vm_compute. reflexivity.
  - reflexivity.
  - vm_compute. discriminate.
Defined.

#[local] Existing Instance Standin.environment.



Lemma registry_is_written_once_witness :
  let h := Scenario.deployed in
  let h' := Scenario.header_of (Exec h [Scenario.mint500; Scenario.deploy9999]) in
  (forall e, e ∈ new_entries h h' -> Key e <> Scenario.key_of MaxSupply "") /\
  view h' (Scenario.key_of MaxSupply "") = view h (Scenario.key_of MaxSupply "").
Proof.
  cbv zeta.
  apply (registry_is_written_once standin_state_keys_apart Scenario.deployed _
           [Scenario.mint500; Scenario.deploy9999] "test" MaxSupply
           (Scenario.key_of Exists "") (Scenario.key_of MaxSupply "") (convertIntToByte 0)).
  - reflexivity.
  - vm_compute. reflexivity.
  - vm_compute. reflexivity.
  - vm_compute. discriminate.
  - rewrite !elem_of_cons. auto.
  - vm_compute. reflexivity.
  - vm_compute. reflexivity.
Defined.

Lemma Exec_completes_without_transfers_witness :
  exists h', Exec Scenario.h0 [Scenario.deploy1000; Scenario.mint500] = Ok h'.
Proof.
  apply (Exec_completes_without_transfers standin_digest_length).
  intros t Ht. rewrite !elem_of_cons, elem_of_nil in Ht.
  destruct Ht as [-> | [-> | []]]; vm_compute; discriminate.
Defined.

Lemma standin_pad_right (l : list Z) :
  (length l <= 32)%nat -> padTo32Bytes l = l ++ replicate (32 - length l) 0.
Proof.
  intros Hl. cbn [padTo32Bytes Standin.environment]. unfold Standin.pad_to_32, copy_into.
  replace (length l <=? 32)%nat with true by (symmetry; apply Nat.leb_le; lia).
  rewrite take_app_ge by lia. f_equal. rewrite take_replicate. f_equal. lia.
Qed.

Lemma source_record_round_trip_witness :
  let h1 := Scenario.header_of
              (saveSourceWalletAndPkscript Scenario.inscribedX "iQ" Scenario.walletB "5120abc") in
  getSourceWalletAndPkscript (fst (Paging h1 Standin.getter_ok false)) "iQ"
  = Ok (Scenario.walletB, "5120abc"%string).
Proof.
  cbv zeta. apply (source_record_round_trip standin_pad_right Scenario.inscribedX).
  - change (bytes_of_string "5120abc") with [53; 49; 50; 48; 97; 98; 99].
    repeat (apply Forall_cons; split; [lia|]). by apply Forall_nil.
  - vm_compute. lia.
  - vm_compute. reflexivity.
Defined.

Lemma Deserialize_Serialize_witness :
  let codec := {| gob_Encode := Some; gob_Decode := Some |} in
  exists h', Deserialize (codec := codec) (KV Scenario.spentX_pending) 12 = Some h' /\
    KV h' = KV Scenario.spentX_pending /\ Root h' = KV Scenario.spentX_pending /\
    Temp h' = [] /\ Height h' = 12 /\ Hash h' = ""%string.
Proof.
  cbv zeta.
  apply (Deserialize_Serialize (codec := {| gob_Encode := Some; gob_Decode := Some |})).
  - intros kv b Hb. cbn in Hb |- *. congruence.
  - reflexivity.
Defined.

Lemma GetEventHash_separates_witness :
  TransferTransferCount = TransferTransferCount /\
  keccak224 "iX" = keccak224 "iX" /\
  length (GetEventHash TransferTransferCount "iX") = 32%nat.
Proof.
  apply (GetEventHash_separates _ _ _ _ standin_digest_length); reflexivity.
Defined.

Lemma deploy_defaults_witness :
  let t := mkOrdTransfer 0 "i0" "" "aa" "walletA" false "text/plain"
             (Standin.json "deploy" "test" "max" "1000") in
  exists h', Exec Scenario.h0 [t] = Ok h' /\
    staged Scenario.h0 h'
      [ (Scenario.key_of Exists "", convertIntToByte 0);
        (Scenario.key_of RemainingSupply "", convertIntToByte (1000 * 10 ^ 18));
        (Scenario.key_of MaxSupply "", convertIntToByte (1000 * 10 ^ 18));
        (Scenario.key_of LimitPerMint "", convertIntToByte (1000 * 10 ^ 18));
        (Scenario.key_of Decimals "", convertIntToByte 18) ].
Proof.
  cbv zeta.
  apply (deploy_defaults Scenario.h0 _ "test" "1000" (1000 * 10 ^ 18)).
  - reflexivity.
  - reflexivity.
  - by right.
  - vm_compute. reflexivity.
  - vm_compute. reflexivity.
  - vm_compute. reflexivity.
  - vm_compute. reflexivity.
  - vm_compute. reflexivity.
  - vm_compute. reflexivity.
  - vm_compute. reflexivity.
  - reflexivity.
  - vm_compute. reflexivity.
  - vm_compute. reflexivity.
  - split; [discriminate|]. vm_compute. discriminate.
Defined.
